(** * Window manager and store binding of electron-starter

    A shallow embedding of [src/js/main/WindowManager.js] (the window
    registry of the main process) and of the Explorer container (the
    react-redux binding), followed by the properties of their contract.

    The manager is a JavaScript class whose methods mutate [this._windows]
    and call into the host toolkit ([BrowserWindow], [shell], [ipc]).  Its
    methods are embedded as computations in a state-and-exception monad over
    a [state] record that holds the instance fields together with the part
    of the toolkit the methods observe. *)

From Stdlib Require Import String List Arith Lia.
From stdpp Require Import base option list strings.
Import ListNotations.

Local Open Scope string_scope.
Local Open Scope list_scope.

(** ** JavaScript values that reach the manager as a window type *)

Inductive jsval : Type :=
| JUndefined
| JNull
| JStr (s : string).

#[global] Instance jsval_eq_dec : EqDecision jsval.
Proof. solve_decision. Defined.

(** [a === b] on these values. *)
Definition strict_eq (a b : jsval) : bool := bool_decide (a = b).

(** An object literal, and the property read [o.name]: a name the literal
    does not define reads as [undefined]. *)
Definition object : Type := list (string * jsval).

Fixpoint prop (o : object) (name : string) : jsval :=
  match o with
  | [] => JUndefined
  | (k, v) :: o' => if decide (k = name) then v else prop o' name
  end.

(** [export const WindowTypes = { Main: 'main', About: 'about' }] *)
Definition WindowTypes : object :=
  [ ("Main", JStr "main"); ("About", JStr "about") ].

(** ** [Map]: insertion-ordered, one entry per key *)

Module JSMap.
Section Ops.
Context {V : Type}.

Definition t : Type := list (jsval * V).

Definition empty : t := [].

Fixpoint get (k : jsval) (m : t) : option V :=
  match m with
  | [] => None
  | (k', v) :: m' => if decide (k' = k) then Some v else get k m'
  end.

(** An existing key keeps its position, a new key goes last. *)
Fixpoint set (k : jsval) (v : V) (m : t) : t :=
  match m with
  | [] => [ (k, v) ]
  | (k', v') :: m' =>
      if decide (k' = k) then (k, v) :: m' else (k', v') :: set k v m'
  end.

Fixpoint delete (k : jsval) (m : t) : t :=
  match m with
  | [] => []
  | (k', v) :: m' =>
      if decide (k' = k) then delete k m' else (k', v) :: delete k m'
  end.

Definition keys (m : t) : list jsval := map fst m.
End Ops.
Arguments t : clear implicits.
End JSMap.

(** ** The host toolkit as the manager sees it *)

Definition handle : Type := nat.

(** The option object given to [new BrowserWindow]; a field the literal
    leaves out is [None]. *)
Record WindowOptions : Type := mkOptions {
  width : nat;
  height : nat;
  minWidth : option nat;
  minHeight : option nat;
  resizable : bool;
  alwaysOnTop : option bool
}.

(** The two arrow functions the manager registers with [w.on('closed', _)]. *)
Inductive listener : Type :=
| MainClosed
| AboutClosed.

#[global] Instance listener_eq_dec : EqDecision listener.
Proof. solve_decision. Defined.

Record BrowserWindow : Type := mkWindow {
  options : WindowOptions;
  menuCleared : bool;                       (* setMenu( null ) *)
  loadedURL : option string;                (* loadURL *)
  listeners : list (string * listener);     (* on( event, listener ) *)
  visible : bool;                           (* isVisible / show / hide *)
  closeRequests : nat;                      (* close() calls received *)
  reloads : nat;                            (* reload() calls received *)
  devTools : bool;                          (* toggleDevTools *)
  destroyed : bool                          (* 'closed' was emitted *)
}.

(** What leaves the process through [console], [Util.log], [shell] and a
    sender's [send]. *)
Inductive effect : Type :=
| ConsoleLog (text : string)
| UtilLog (text : string)
| OpenExternal (url : string)
| Send (sender : nat) (channel : string).

#[global] Instance effect_eq_dec : EqDecision effect.
Proof. solve_decision. Defined.

(** The listener bound in the constructor. *)
Inductive ipcListener : Type :=
| OnRequestShowURL.

Record state : Type := mkState {
  _windows : JSMap.t handle;                (* this._windows *)
  ipc : list (string * ipcListener);        (* context.ipc *)
  heap : list BrowserWindow;                (* every window ever created *)
  focused : option handle;                  (* BrowserWindow.getFocusedWindow() *)
  effects : list effect
}.

Definition with_windows (m : JSMap.t handle) (s : state) : state :=
  mkState m (ipc s) (heap s) (focused s) (effects s).
Definition with_ipc (l : list (string * ipcListener)) (s : state) : state :=
  mkState (_windows s) l (heap s) (focused s) (effects s).
Definition with_heap (h : list BrowserWindow) (s : state) : state :=
  mkState (_windows s) (ipc s) h (focused s) (effects s).
Definition with_focused (f : option handle) (s : state) : state :=
  mkState (_windows s) (ipc s) (heap s) f (effects s).
Definition with_effects (e : list effect) (s : state) : state :=
  mkState (_windows s) (ipc s) (heap s) (focused s) e.

(** ** Computations: state threading with exceptions *)

Inductive exn : Type :=
| TypeError (message : string).

Inductive outcome (A : Type) : Type :=
| Normal (a : A)
| Throw (e : exn).
Arguments Normal {A} a.
Arguments Throw {A} e.

Definition M (A : Type) : Type := state → outcome A * state.

Definition ret {A} (a : A) : M A := λ s, (Normal a, s).
Definition throw {A} (e : exn) : M A := λ s, (Throw e, s).
Definition bind {A B} (m : M A) (k : A → M B) : M B :=
  λ s, match m s with
       | (Normal a, s') => k a s'
       | (Throw e, s') => (Throw e, s')
       end.
Definition gets {A} (f : state → A) : M A := λ s, (Normal (f s), s).
Definition modify (f : state → state) : M unit := λ s, (Normal tt, f s).

Notation "'let*' x ':=' m 'in' k" := (bind m (λ x, k))
  (at level 10, x name, m at level 100, k at level 200).
Notation "m ;; k" := (bind m (λ _, k))
  (at level 100, k at level 200, right associativity).

Definition when (b : bool) (m : M unit) : M unit := if b then m else ret tt.

(** [m.forEach( ( value, key ) => ... )] over the entries in insertion
    order; an exception in the callback ends the iteration. *)
Fixpoint forEach (m : JSMap.t handle) (f : handle → jsval → M unit) : M unit :=
  match m with
  | [] => ret tt
  | (k, v) :: m' => f v k ;; forEach m' f
  end.

(** *** Window primitives

    A window method updates the record of the window it is called on.  A
    close request is only recorded: the toolkit reports the closing later,
    from its own event queue, by emitting ['closed'] (see [emit_closed]). *)

Definition update_window (h : handle) (f : BrowserWindow → BrowserWindow) : M unit :=
  modify (λ s, with_heap (alter f h (heap s)) s).

(** A window as [new BrowserWindow( options )] hands it over: shown (the
    option [show] is not given), nothing loaded, no listener. *)
Definition fresh_window (o : WindowOptions) : BrowserWindow :=
  mkWindow o false None [] true 0 0 false false.

(** The new window's handle is its position among the windows created. *)
Definition new_BrowserWindow (o : WindowOptions) : M handle :=
  λ s, (Normal (length (heap s)), with_heap (heap s ++ [fresh_window o]) s).

Definition win_on (h : handle) (ev : string) (l : listener) : M unit :=
  update_window h (λ w, mkWindow (options w) (menuCleared w) (loadedURL w)
    (listeners w ++ [(ev, l)]) (visible w) (closeRequests w) (reloads w)
    (devTools w) (destroyed w)).

Definition win_setMenu_null (h : handle) : M unit :=
  update_window h (λ w, mkWindow (options w) true (loadedURL w)
    (listeners w) (visible w) (closeRequests w) (reloads w)
    (devTools w) (destroyed w)).

Definition win_loadURL (h : handle) (u : string) : M unit :=
  update_window h (λ w, mkWindow (options w) (menuCleared w) (Some u)
    (listeners w) (visible w) (closeRequests w) (reloads w)
    (devTools w) (destroyed w)).

Definition set_visible (b : bool) (w : BrowserWindow) : BrowserWindow :=
  mkWindow (options w) (menuCleared w) (loadedURL w)
    (listeners w) b (closeRequests w) (reloads w) (devTools w) (destroyed w).

Definition win_show (h : handle) : M unit := update_window h (set_visible true).
Definition win_hide (h : handle) : M unit := update_window h (set_visible false).

Definition win_isVisible (h : handle) : M bool :=
  gets (λ s, match heap s !! h with Some w => visible w | None => false end).

Definition request_close (w : BrowserWindow) : BrowserWindow :=
  mkWindow (options w) (menuCleared w) (loadedURL w)
    (listeners w) (visible w) (S (closeRequests w)) (reloads w)
    (devTools w) (destroyed w).

Definition win_close (h : handle) : M unit := update_window h request_close.

Definition win_reload (h : handle) : M unit :=
  update_window h (λ w, mkWindow (options w) (menuCleared w) (loadedURL w)
    (listeners w) (visible w) (closeRequests w) (S (reloads w))
    (devTools w) (destroyed w)).

Definition win_toggleDevTools (h : handle) : M unit :=
  update_window h (λ w, mkWindow (options w) (menuCleared w) (loadedURL w)
    (listeners w) (visible w) (closeRequests w) (reloads w)
    (negb (devTools w)) (destroyed w)).

Definition destroy (w : BrowserWindow) : BrowserWindow :=
  mkWindow (options w) (menuCleared w) (loadedURL w)
    (listeners w) false (closeRequests w) (reloads w) (devTools w) true.

Definition emit (e : effect) : M unit :=
  modify (λ s, with_effects (effects s ++ [e]) s).

(** ** The window types the code names

    [WindowTypes.GraphicEqualizer] is read in [show] although the literal
    defines only [Main] and [About]. *)

Definition Main : jsval := prop WindowTypes "Main".
Definition About : jsval := prop WindowTypes "About".
Definition GraphicEqualizer : jsval := prop WindowTypes "GraphicEqualizer".

(** The event object of an inbound IPC message. *)
Record IPCEvent : Type := mkEvent { sender : nat }.

(** What can happen to a manager: a call of one of its public methods, or a
    callback from the toolkit's event queue. *)
Inductive event : Type :=
| Call_getWindow (type : jsval)
| Call_close (type : jsval)
| Call_show (type : jsval)
| Call_toggle (type : jsval)
| Call_reload
| Call_toggleDevTools
| Emit_closed (h : handle)
| Emit_ipc (channel : string) (ev : IPCEvent) (url : string)
| Focus (h : option handle).

(** Globals and imports that [WindowManager.js] uses and does not define. *)
Class Externals : Type := mkExternals {
  DEBUG : bool;
  __dirname : string;
  Path_join : string → string → string;
  IPCKeys_RequestShowURL : string;
  IPCKeys_FinishShowURL : string;
  (** what [shell.openExternal] answers for a URL *)
  shell_openExternal_result : string → bool
}.

(** ** [class WindowManager] *)

Module WindowManager.
Section Manager.
Context {ext : Externals}.

Definition Util_log (text : string) : M unit := emit (UtilLog text).
Definition console_log (text : string) : M unit := emit (ConsoleLog text).
Definition shell_openExternal (url : string) : M bool :=
  emit (OpenExternal url) ;; ret (shell_openExternal_result url).
Definition sender_send (ev : IPCEvent) (channel : string) : M unit :=
  emit (Send (sender ev) channel).

Definition windows_get (k : jsval) : M (option handle) :=
  gets (λ s, JSMap.get k (_windows s)).
Definition windows_set (k : jsval) (w : handle) : M unit :=
  modify (λ s, with_windows (JSMap.set k w (_windows s)) s).
Definition windows_delete (k : jsval) : M unit :=
  modify (λ s, with_windows (JSMap.delete k (_windows s)) s).

(** [constructor( context )], run on the state of a context that has no
    manager yet. *)
Definition constructor : M unit :=
  modify (λ s, with_ipc (ipc s ++ [(IPCKeys_RequestShowURL, OnRequestShowURL)])
                 (with_windows JSMap.empty s)).

Definition getWindow (type : jsval) : M (option handle) :=
  windows_get type.

Definition close (type : jsval) : M unit :=
  let* w := windows_get type in
  match w with
  | None => ret tt
  | Some w => win_close w
  end.

(** The listener given to [w.on( 'closed', ... )] in [_showMain]. *)
Definition onMainClosed : M unit :=
  when DEBUG (Util_log "The main window was closed.") ;;
  let* m := gets _windows in
  forEach m (λ value key,
    if strict_eq key Main then ret tt else win_close value) ;;
  windows_delete Main.

(** The listener given to [w.on( 'closed', ... )] in [_showAbout]. *)
Definition onAboutClosed : M unit :=
  when DEBUG (Util_log "The about application window was closed.") ;;
  windows_delete About.

Definition _showMain : M unit :=
  let* existing := windows_get Main in
  match existing with
  | Some _ => ret tt
  | None =>
      let* w := new_BrowserWindow
                  (mkOptions 600 480 (Some 480) (Some 320) true None) in
      win_on w "closed" MainClosed ;;
      let filePath := Path_join __dirname "window-main.html" in
      win_loadURL w (String.append "file://" filePath) ;;
      windows_set Main w
  end.

Definition _showAbout : M unit :=
  let* existing := windows_get About in
  match existing with
  | Some _ => ret tt
  | None =>
      let* w := new_BrowserWindow
                  (mkOptions 400 256 None None false (Some true)) in
      win_setMenu_null w ;;
      win_on w "closed" AboutClosed ;;
      let filePath := Path_join __dirname "window-about.html" in
      win_loadURL w (String.append "file://" filePath) ;;
      windows_set About w
  end.

Definition reload : M unit :=
  let* w := gets focused in
  match w with
  | Some w => win_reload w
  | None => ret tt
  end.

Definition toggleDevTools : M unit :=
  let* w := gets focused in
  match w with
  | Some w => win_toggleDevTools w
  | None => ret tt
  end.

(** The methods of the class that take no argument, by name: what a call
    [this.name()] can find. *)
Definition prototype : list (string * M unit) :=
  [ ("reload", reload); ("toggleDevTools", toggleDevTools);
    ("_showMain", _showMain); ("_showAbout", _showAbout) ].

Fixpoint method (name : string) (table : list (string * M unit)) : option (M unit) :=
  match table with
  | [] => None
  | (n, body) :: table' => if decide (n = name) then Some body else method name table'
  end.

(** [this.name()]: calling a property that is not a function is a
    [TypeError]. *)
Definition call (name : string) : M unit :=
  match method name prototype with
  | Some body => body
  | None => throw (TypeError (String.append "this." (String.append name " is not a function")))
  end.

Definition show (type : jsval) : M unit :=
  if strict_eq type Main then call "_showMain"
  else if strict_eq type About then call "_showAbout"
  else if strict_eq type GraphicEqualizer then call "_showGraphicEqualizer"
  else ret tt.

Definition toggle (type : jsval) : M unit :=
  if strict_eq type Main then ret tt
  else
    let* w := windows_get type in
    match w with
    | Some w =>
        let* v := win_isVisible w in
        if v then win_hide w else win_show w
    | None => show type
    end.

Definition _onRequestShowURL (ev : IPCEvent) (url : string) : M unit :=
  console_log url ;;
  shell_openExternal url ;;
  sender_send ev IPCKeys_FinishShowURL.

(** *** Callbacks from the toolkit *)

Definition run_listener (l : listener) : M unit :=
  match l with
  | MainClosed => onMainClosed
  | AboutClosed => onAboutClosed
  end.

Fixpoint run_listeners (ls : list listener) : M unit :=
  match ls with
  | [] => ret tt
  | l :: ls' => run_listener l ;; run_listeners ls'
  end.

Definition listeners_for (ev : string) (w : BrowserWindow) : list listener :=
  map snd (filter (λ p, p.1 = ev) (listeners w)).

(** The toolkit closes window [h]: the window is gone, then its
    ['closed'] listeners run.  A window closes once. *)
Definition emit_closed (h : handle) : M unit :=
  let* w := gets (λ s, heap s !! h) in
  match w with
  | None => ret tt
  | Some w =>
      if destroyed w then ret tt
      else
        update_window h destroy ;;
        modify (λ s, if decide (focused s = Some h)
                     then with_focused None s else s) ;;
        run_listeners (listeners_for "closed" w)
  end.

Definition run_ipcListener (l : ipcListener) (ev : IPCEvent) (url : string) : M unit :=
  match l with
  | OnRequestShowURL => _onRequestShowURL ev url
  end.

Fixpoint run_ipcListeners (ls : list ipcListener) (ev : IPCEvent) (url : string) : M unit :=
  match ls with
  | [] => ret tt
  | l :: ls' => run_ipcListener l ev url ;; run_ipcListeners ls' ev url
  end.

(** A message arrives on [channel]: every listener bound to it runs. *)
Definition emit_ipc (channel : string) (ev : IPCEvent) (url : string) : M unit :=
  let* ls := gets (λ s, map snd (filter (λ p, p.1 = channel) (ipc s))) in
  run_ipcListeners ls ev url.

(** Focus moves to a live window, or to none. *)
Definition set_focus (o : option handle) : M unit :=
  modify (λ s,
    match o with
    | None => with_focused None s
    | Some h =>
        match heap s !! h with
        | Some w => if destroyed w then s else with_focused (Some h) s
        | None => s
        end
    end).

Definition exec (e : event) : M unit :=
  match e with
  | Call_getWindow type => getWindow type ;; ret tt
  | Call_close type => close type
  | Call_show type => show type
  | Call_toggle type => toggle type
  | Call_reload => reload
  | Call_toggleDevTools => toggleDevTools
  | Emit_closed h => emit_closed h
  | Emit_ipc channel ev url => emit_ipc channel ev url
  | Focus o => set_focus o
  end.

(** The state an event leaves behind; an exception ends the call and the
    event loop goes on. *)
Definition step (s : state) (e : event) : state := (exec e s).2.

Definition run (tr : list event) (s : state) : state := fold_left step tr s.

(** A context before the manager is constructed, and the manager right
    after construction. *)
Definition bare_context : state := mkState JSMap.empty [] [] None [].
Definition initial : state := (constructor bare_context).2.

End Manager.
End WindowManager.

(** ** The Explorer container: store binding

    [RendererTypes], [actions/index] and the store are not part of the
    fragment: the types of the two state fields, the folder type, the action
    type with its two creators, and the store that [dispatch] acts on are
    taken as given. *)

Module Container.
Section Binding.
Context {Folders CurrentFolder Rest Folder Action Store Result : Type}.
(** [enumSubFolders] and [enumItems] of [actions/index] *)
Variable actions_enumSubFolders : string → Action.
Variable actions_enumItems : Folder → Action.

(** [AppState]: the two fields the binding reads, and whatever else the
    store keeps. *)
Record AppState : Type := mkAppState {
  state_folders : Folders;
  state_currentFolder : CurrentFolder;
  state_rest : Rest
}.

Record StateByProps : Type := mkStateByProps {
  folders : Folders;
  currentFolder : CurrentFolder
}.

(** A callback runs against the store and returns nothing. *)
Definition callback (A : Type) : Type := A → Store → unit * Store.

Record DispatchByProps : Type := mkDispatchByProps {
  enumSubFolders : callback string;
  enumItems : callback Folder
}.

Definition mapStateToProps (state : AppState) : StateByProps :=
  {| folders := state_folders state;
     currentFolder := state_currentFolder state |}.

Definition mapDispatchToProps (dispatch : Action → Store → Result * Store)
  : DispatchByProps :=
  {| enumSubFolders := λ folderPath st,
       let '(_, st') := dispatch (actions_enumSubFolders folderPath) st in
       (tt, st');
     enumItems := λ folder st,
       let '(_, st') := dispatch (actions_enumItems folder) st in
       (tt, st') |}.
End Binding.

(** A store that only records what is dispatched to it, in order; like
    redux's [dispatch] it hands the action back. *)
Definition recording_dispatch {Action : Type} (a : Action) (log : list Action)
  : Action * list Action := (a, log ++ [a]).

Arguments AppState : clear implicits.
Arguments StateByProps : clear implicits.
Arguments DispatchByProps : clear implicits.
End Container.

(** ** Vocabulary of the properties *)

(** The key a ['closed'] listener deletes from the registry. *)
Definition owner (l : listener) : jsval :=
  match l with
  | MainClosed => Main
  | AboutClosed => About
  end.

(** What decides the fate of a window: its listeners and whether it is
    gone. *)
Definition lifecycle (w : BrowserWindow) : list (string * listener) * bool :=
  (listeners w, destroyed w).

(** The invariant of a constructed manager: the constructor's IPC binding is
    in place, the registry has one entry per key, every window was set up
    with one ['closed'] listener, and a registered window is alive and
    carries the listener that deletes its own key. *)
Record wf {ext : Externals} (s : state) : Prop := mkWf {
  wf_ipc : ipc s = [(IPCKeys_RequestShowURL, OnRequestShowURL)];
  wf_keys : NoDup (JSMap.keys (_windows s));
  wf_heap : ∀ h w, heap s !! h = Some w → ∃ l, listeners w = [("closed", l)];
  wf_registry : ∀ type h, JSMap.get type (_windows s) = Some h →
    ∃ l, lifecycle <$> heap s !! h = Some ([("closed", l)], false)
         ∧ owner l = type
}.

(** The windows after the loop of the [Main] listener: one close request
    for the value of every entry whose key is not [Main], in entry order. *)
Fixpoint close_others (m : JSMap.t handle) (hp : list BrowserWindow)
  : list BrowserWindow :=
  match m with
  | [] => hp
  | (key, value) :: m' =>
      close_others m' (if strict_eq key Main then hp
                       else alter request_close value hp)
  end.

(** Does the event run [show( type )], directly or through [toggle]?
    [toggle] of [Main] returns before it reaches [show]; [toggle] of another
    type reaches it when the type has no entry. *)
Definition invokes_show (type : jsval) (e : event) : bool :=
  match e with
  | Call_show type' => bool_decide (type' = type)
  | Call_toggle type' => bool_decide (type' = type) && negb (strict_eq type Main)
  | _ => false
  end.

(** The URLs handed to [shell.openExternal], and the messages sent back,
    in order. *)
Definition opened (es : list effect) : list string :=
  omap (λ e, match e with OpenExternal url => Some url | _ => None end) es.

Definition sent (es : list effect) : list (nat * string) :=
  omap (λ e, match e with Send to channel => Some (to, channel) | _ => None end) es.

(** How a window was set up: its options, whether its menu was removed,
    what it loaded, and its listeners. *)
Definition config (w : BrowserWindow)
  : WindowOptions * bool * option string * list (string * listener) :=
  (options w, menuCleared w, loadedURL w, listeners w).

(** The set-up [_showMain] and [_showAbout] give the window they create,
    named by the listener they register on it. *)
Definition blueprint {ext : Externals} (l : listener)
  : WindowOptions * bool * option string * list (string * listener) :=
  match l with
  | MainClosed =>
      (mkOptions 600 480 (Some 480) (Some 320) true None, false,
       Some (String.append "file://" (Path_join __dirname "window-main.html")),
       [("closed", MainClosed)])
  | AboutClosed =>
      (mkOptions 400 256 None None false (Some true), true,
       Some (String.append "file://" (Path_join __dirname "window-about.html")),
       [("closed", AboutClosed)])
  end.

(** Every window the toolkit knows was set up by one of the two. *)
Definition configured {ext : Externals} (s : state) : Prop :=
  ∀ h w, heap s !! h = Some w → ∃ l, config w = blueprint l.

(** No window is left behind: a window that has not been closed is the one
    the registry holds under the key of its listener. *)
Definition no_orphans {ext : Externals} (s : state) : Prop :=
  ∀ h w, heap s !! h = Some w → destroyed w = false →
    ∃ l, listeners w = [("closed", l)]
         ∧ JSMap.get (owner l) (_windows s) = Some h.

(** The URLs of the [RequestShowURL] messages of a history, in order, and
    the acknowledgments they call for. *)
Definition requested {ext : Externals} (tr : list event) : list string :=
  omap (λ e, match e with
             | Emit_ipc channel ev url =>
                 if decide (IPCKeys_RequestShowURL = channel)
                 then Some url else None
             | _ => None
             end) tr.

Definition acknowledgments {ext : Externals} (tr : list event)
  : list (nat * string) :=
  omap (λ e, match e with
             | Emit_ipc channel ev url =>
                 if decide (IPCKeys_RequestShowURL = channel)
                 then Some (sender ev, IPCKeys_FinishShowURL) else None
             | _ => None
             end) tr.

(** A call of one of the six public methods, as opposed to a callback. *)
Definition is_call (e : event) : bool :=
  match e with
  | Emit_closed _ | Emit_ipc _ _ _ | Focus _ => false
  | _ => true
  end.

(** The message [Util.log] gets from each ['closed'] listener. *)
Definition closed_message (l : listener) : string :=
  match l with
  | MainClosed => "The main window was closed."
  | AboutClosed => "The about application window was closed."
  end.

(** ** Concrete inputs *)

(** A concrete environment, used to run the code on examples. *)
Definition example_externals : Externals :=
  mkExternals false "/app"
    (λ dir file, String.append dir (String.append "/" file))
    "RequestShowURL" "FinishShowURL" (λ _, true).

(** A session in that environment: the main window (handle 0), then the
    about window (handle 1). *)
Definition example_session : state :=
  WindowManager.run (ext := example_externals)
    [Call_show Main; Call_show About]
    (WindowManager.initial (ext := example_externals)).

(** The about window of that session. *)
Definition example_about_window : BrowserWindow :=
  mkWindow (mkOptions 400 256 None None false (Some true)) true
    (Some "file:///app/window-about.html") [("closed", AboutClosed)]
    true 0 0 false false.

(** * Properties *)

(** ** Facts about [Map] *)

Section JSMapFacts.
Context {V : Type}.
Implicit Types (k : jsval) (v : V) (m : JSMap.t V).

Lemma get_set_eq k v m : JSMap.get k (JSMap.set k v m) = Some v.
Proof.
  induction m as [|[k' v'] m IH]; simpl.
  - by rewrite decide_True.
  - destruct (decide (k' = k)) as [->|Hne]; simpl.
    + by rewrite decide_True.
    + by rewrite decide_False.
Qed.

Lemma get_set_ne k (k' : jsval) v m : k ≠ k' → JSMap.get k' (JSMap.set k v m) = JSMap.get k' m.
Proof.
  intros Hne. induction m as [|[k0 v0] m IH]; simpl.
  - by rewrite decide_False.
  - destruct (decide (k0 = k)) as [->|Hk0]; simpl.
    + by rewrite !decide_False.
    + destruct (decide (k0 = k')); [done | apply IH].
Qed.

Lemma get_delete_eq k m : JSMap.get k (JSMap.delete k m) = None.
Proof.
  induction m as [|[k' v'] m IH]; simpl; [done|].
  destruct (decide (k' = k)) as [->|Hne]; simpl; [done|].
  by rewrite decide_False.
Qed.

Lemma get_delete_ne k (k' : jsval) m : k ≠ k' → JSMap.get k' (JSMap.delete k m) = JSMap.get k' m.
Proof.
  intros Hne. induction m as [|[k0 v0] m IH]; simpl; [done|].
  destruct (decide (k0 = k)) as [->|Hk0]; simpl.
  - by rewrite decide_False.
  - by rewrite IH.
Qed.

Lemma get_None_keys k m : JSMap.get k m = None ↔ k ∉ JSMap.keys m.
Proof.
  unfold JSMap.keys. induction m as [|[k' v'] m IH]; simpl.
  - split; [intros _; apply not_elem_of_nil | done].
  - rewrite not_elem_of_cons. destruct (decide (k' = k)) as [->|Hne].
    + split; [done | intros [? _]; done].
    + rewrite IH. split; [intros ?; split; [congruence | done] | tauto].
Qed.

Lemma keys_get k m : k ∈ JSMap.keys m → is_Some (JSMap.get k m).
Proof.
  intros Hin. destruct (JSMap.get k m) eqn:Hget; [eauto|].
  by apply get_None_keys in Hget.
Qed.

Lemma keys_delete k (k' : jsval) m :
  k' ∈ JSMap.keys (JSMap.delete k m) → k' ∈ JSMap.keys m.
Proof.
  unfold JSMap.keys. induction m as [|[k0 v0] m IH]; simpl; [done|].
  destruct (decide (k0 = k)); simpl.
  - intros Hin. apply list_elem_of_further. by apply IH.
  - rewrite !elem_of_cons. intros [-> | Hin]; [by left | right; by apply IH].
Qed.

Lemma NoDup_keys_delete k m :
  NoDup (JSMap.keys m) → NoDup (JSMap.keys (JSMap.delete k m)).
Proof.
  induction m as [|[k0 v0] m IH]; simpl; [done|].
  intros [Hnotin Hnd]%NoDup_cons. destruct (decide (k0 = k)); simpl.
  - by apply IH.
  - apply NoDup_cons. split; [|by apply IH].
    intros Hin. apply Hnotin. by apply keys_delete in Hin.
Qed.

Lemma keys_set k (k' : jsval) v m :
  k' ∈ JSMap.keys (JSMap.set k v m) → k' = k ∨ k' ∈ JSMap.keys m.
Proof.
  unfold JSMap.keys. induction m as [|[k0 v0] m IH]; simpl.
  - rewrite list_elem_of_singleton. by left.
  - destruct (decide (k0 = k)) as [->|Hne]; simpl; rewrite !elem_of_cons.
    + intros [-> | Hin]; [by left | right; by right].
    + intros [-> | Hin]; [right; by left |].
      destruct (IH Hin) as [-> | Hin']; [by left | right; by right].
Qed.

Lemma NoDup_keys_set k v m :
  NoDup (JSMap.keys m) → NoDup (JSMap.keys (JSMap.set k v m)).
Proof.
  induction m as [|[k0 v0] m IH]; simpl.
  - intros _. apply NoDup_singleton.
  - intros [Hnotin Hnd]%NoDup_cons.
    destruct (decide (k0 = k)) as [->|Hne]; simpl.
    + by apply NoDup_cons.
    + apply NoDup_cons. split; [|by apply IH].
      intros Hin. destruct (keys_set _ _ _ _ Hin) as [-> | Hin']; done.
Qed.
Lemma get_delete_None k (k' : jsval) m :
  JSMap.get k' m = None → JSMap.get k' (JSMap.delete k m) = None.
Proof.
  intros Hnone. destruct (decide (k = k')) as [->|Hne].
  - apply get_delete_eq.
  - by rewrite get_delete_ne.
Qed.
End JSMapFacts.

(** ** The public methods, one call at a time *)

Section Calls.
Context {ext : Externals}.
Import WindowManager.

Lemma Main_value : Main = JStr "main".
Proof. reflexivity. Qed.

Lemma About_value : About = JStr "about".
Proof. reflexivity. Qed.

(** The literal has no [GraphicEqualizer]: the case label of [show] is
    [undefined]. *)
Lemma GraphicEqualizer_value : GraphicEqualizer = JUndefined.
Proof. reflexivity. Qed.

Lemma strict_eq_true (a b : jsval) : a = b → strict_eq a b = true.
Proof. intros ->. unfold strict_eq. by rewrite bool_decide_eq_true. Qed.

Lemma strict_eq_false (a b : jsval) : a ≠ b → strict_eq a b = false.
Proof. intros Hne. unfold strict_eq. by rewrite bool_decide_eq_false. Qed.

(** C5: [toggle( WindowTypes.Main )] returns at its first line: whatever
    the state before the call, the state after it is the same state (the
    registry, every window with its visibility, the focus and the outputs),
    and the call ends normally. *)
Theorem toggle_Main_changes_nothing (s : state) :
  toggle Main s = (Normal tt, s).
Proof. reflexivity. Qed.

(** C6: when the registry has no entry for [type], [close( type )] ends
    normally and leaves the whole state as it was; in particular no window
    has received a close request. *)
Theorem close_absent_is_noop (type : jsval) (s : state) :
  JSMap.get type (_windows s) = None →
  close type s = (Normal tt, s)
  ∧ ∀ h w, heap (close type s).2 !! h = Some w →
      ∃ w0, heap s !! h = Some w0 ∧ closeRequests w = closeRequests w0.
Proof.
  intros Habsent.
  assert (close type s = (Normal tt, s)) as Hclose.
  { unfold close, windows_get, bind, gets. by rewrite Habsent. }
  split; [done|]. rewrite Hclose. simpl. eauto.
Qed.

(** C3: for a type other than [Main] whose entry is absent, [toggle( type )]
    and [show( type )] give the same outcome and the same state. *)
Theorem toggle_absent_is_show (type : jsval) (s : state) :
  type ≠ Main →
  JSMap.get type (_windows s) = None →
  toggle type s = show type s.
Proof.
  intros Hne Habsent. unfold toggle.
  rewrite (strict_eq_false _ _ Hne).
  unfold windows_get, bind, gets. by rewrite Habsent.
Qed.

(** Every value that is none of the three case labels of [show] falls to
    the [default] branch. *)
Lemma show_default_is_noop (type : jsval) (s : state) :
  type ≠ Main → type ≠ About → type ≠ GraphicEqualizer →
  show type s = (Normal tt, s).
Proof.
  intros H1 H2 H3. unfold show.
  by rewrite (strict_eq_false _ _ H1), (strict_eq_false _ _ H2),
    (strict_eq_false _ _ H3).
Qed.

(** C2: [show( WindowTypes.GraphicEqualizer )], that is [show( undefined )],
    takes the third case of the [switch] and calls
    [this._showGraphicEqualizer], which the class does not define: the call
    throws a [TypeError], in every state. *)
Theorem show_GraphicEqualizer_throws (s : state) :
  show GraphicEqualizer s
  = (Throw (TypeError "this._showGraphicEqualizer is not a function"), s).
Proof. reflexivity. Qed.

(** The same exception leaves [toggle] when the entry is absent. *)
Lemma toggle_undefined_throws (s : state) :
  JSMap.get JUndefined (_windows s) = None →
  toggle JUndefined s
  = (Throw (TypeError "this._showGraphicEqualizer is not a function"), s).
Proof.
  intros Habsent. unfold toggle.
  rewrite (strict_eq_false JUndefined Main) by discriminate.
  unfold windows_get, bind, gets. by rewrite Habsent.
Qed.
(** *** Creating a window *)

Lemma alter_last {A} (f : A → A) (l : list A) (x : A) :
  alter f (length l) (l ++ [x]) = l ++ [f x].
Proof. by rewrite alter_app_r_alt, Nat.sub_diag by lia. Qed.

(** The state [_showMain] leaves when [Main] has no entry: one more window,
    configured as the source does, registered under [Main]. *)
Lemma _showMain_absent (s : state) :
  JSMap.get Main (_windows s) = None →
  _showMain s =
    (Normal tt,
     mkState (JSMap.set Main (length (heap s)) (_windows s)) (ipc s)
       (heap s ++ [mkWindow (mkOptions 600 480 (Some 480) (Some 320) true None)
                     false
                     (Some (String.append "file://"
                              (Path_join __dirname "window-main.html")))
                     [("closed", MainClosed)] true 0 0 false false])
       (focused s) (effects s)).
Proof.
  intros Habsent. unfold _showMain, windows_get, bind, gets. rewrite Habsent.
  unfold new_BrowserWindow, win_on, win_loadURL, windows_set, update_window,
    modify, with_heap, with_windows, fresh_window. simpl.
  by rewrite !alter_last.
Qed.

Lemma _showAbout_absent (s : state) :
  JSMap.get About (_windows s) = None →
  _showAbout s =
    (Normal tt,
     mkState (JSMap.set About (length (heap s)) (_windows s)) (ipc s)
       (heap s ++ [mkWindow (mkOptions 400 256 None None false (Some true))
                     true
                     (Some (String.append "file://"
                              (Path_join __dirname "window-about.html")))
                     [("closed", AboutClosed)] true 0 0 false false])
       (focused s) (effects s)).
Proof.
  intros Habsent. unfold _showAbout, windows_get, bind, gets. rewrite Habsent.
  unfold new_BrowserWindow, win_on, win_setMenu_null, win_loadURL, windows_set,
    update_window, modify, with_heap, with_windows, fresh_window. simpl.
  by rewrite !alter_last.
Qed.

Lemma _showMain_present (s : state) (h : handle) :
  JSMap.get Main (_windows s) = Some h → _showMain s = (Normal tt, s).
Proof. intros Hh. unfold _showMain, windows_get, bind, gets. by rewrite Hh. Qed.

Lemma _showAbout_present (s : state) (h : handle) :
  JSMap.get About (_windows s) = Some h → _showAbout s = (Normal tt, s).
Proof. intros Hh. unfold _showAbout, windows_get, bind, gets. by rewrite Hh. Qed.

Lemma show_Main (s : state) : show Main s = _showMain s.
Proof. reflexivity. Qed.

Lemma show_About (s : state) : show About s = _showAbout s.
Proof. reflexivity. Qed.

(** After [show] of one of the two types that have a window, the registry
    holds a handle for it, and the call ended normally. *)
Lemma show_registers (type : jsval) (s : state) :
  type = Main ∨ type = About →
  (show type s).1 = Normal tt
  ∧ ∃ h, JSMap.get type (_windows (show type s).2) = Some h.
Proof.
  intros [-> | ->].
  - rewrite show_Main.
    destruct (JSMap.get Main (_windows s)) as [h|] eqn:Hget.
    + rewrite (_showMain_present s h Hget). eauto.
    + rewrite (_showMain_absent s Hget). simpl. split; [done|].
      eexists. apply get_set_eq.
  - rewrite show_About.
    destruct (JSMap.get About (_windows s)) as [h|] eqn:Hget.
    + rewrite (_showAbout_present s h Hget). eauto.
    + rewrite (_showAbout_absent s Hget). simpl. split; [done|].
      eexists. apply get_set_eq.
Qed.

(** C4: for [About] and for [Main], [show] on a type that already has its
    window changes nothing; hence a second [show] right after a first one
    changes nothing, and two calls in a row from a state without the window
    add exactly one window to those the toolkit has created. *)
Theorem show_is_idempotent (type : jsval) (s : state) :
  type = About ∨ type = Main →
  (∀ h, JSMap.get type (_windows s) = Some h → show type s = (Normal tt, s))
  ∧ show type (show type s).2 = (Normal tt, (show type s).2)
  ∧ (JSMap.get type (_windows s) = None →
     length (heap (run [Call_show type; Call_show type] s)) = S (length (heap s))).
Proof.
  intros Htype.
  assert (∀ s' h, JSMap.get type (_windows s') = Some h →
            show type s' = (Normal tt, s')) as Hpresent.
  { intros s' h Hh. destruct Htype as [-> | ->].
    - rewrite show_About. by apply _showAbout_present with h.
    - rewrite show_Main. by apply _showMain_present with h. }
  assert (show type (show type s).2 = (Normal tt, (show type s).2)) as Hsecond.
  { destruct (show_registers type s) as [_ [h Hh]]; [tauto|].
    by apply Hpresent with h. }
  split; [apply Hpresent|]. split; [exact Hsecond|].
  intros Habsent. unfold run, step. simpl. rewrite Hsecond. simpl.
  destruct Htype as [-> | ->].
  - rewrite show_About, (_showAbout_absent s Habsent). simpl.
    rewrite length_app. simpl. lia.
  - rewrite show_Main, (_showMain_absent s Habsent). simpl.
    rewrite length_app. simpl. lia.
Qed.

(** *** The focused window *)

(** C10: [reload()] and [toggleDevTools()] end normally and leave
    [this._windows] as it was; without a focused window they change nothing
    at all, and with one they leave every other window as it was. *)
Theorem reload_toggleDevTools_keep_registry (s : state) :
  ((reload s).1 = Normal tt ∧ (toggleDevTools s).1 = Normal tt)
  ∧ (_windows (reload s).2 = _windows s
     ∧ _windows (toggleDevTools s).2 = _windows s)
  ∧ (focused s = None → (reload s).2 = s ∧ (toggleDevTools s).2 = s)
  ∧ (∀ h, focused s ≠ Some h →
       heap (reload s).2 !! h = heap s !! h
       ∧ heap (toggleDevTools s).2 !! h = heap s !! h).
Proof.
  unfold reload, toggleDevTools, bind, gets.
  destruct (focused s) as [f|] eqn:Hf; simpl.
  - repeat split; try done.
    + apply list_lookup_alter_ne. congruence.
    + apply list_lookup_alter_ne. congruence.
  - repeat split; done.
Qed.
End Calls.

(** ** The invariant of a constructed manager *)

Section Invariant.
Context {ext : Externals}.
Import WindowManager.

Lemma fmap_lookup_alter {B} (g : BrowserWindow → B) f i (hp : list BrowserWindow) h :
  (∀ w, g (f w) = g w) → g <$> alter f i hp !! h = g <$> hp !! h.
Proof.
  intros Hg. rewrite list_lookup_alter. case_decide as Hi; [subst i|done].
  destruct (hp !! h) as [w|]; [|done].
  change (Some (g (f w)) = Some (g w)). by rewrite Hg.
Qed.

Lemma fmap_lookup_close_others {B} (g : BrowserWindow → B) m hp h :
  (∀ w, g (request_close w) = g w) →
  g <$> close_others m hp !! h = g <$> hp !! h.
Proof.
  intros Hg. revert hp. induction m as [|[k v] m IH]; intros hp; simpl; [done|].
  rewrite IH. destruct (strict_eq k Main); [done|].
  by apply fmap_lookup_alter.
Qed.

(** The loop of the [Main] listener, as one update of the windows. *)
Lemma forEach_close_others m s :
  forEach m (λ value key, if strict_eq key Main then ret tt else win_close value) s
  = (Normal tt, with_heap (close_others m (heap s)) s).
Proof.
  revert s. induction m as [|[k v] m IH]; intros s; simpl.
  - by destruct s.
  - unfold bind. destruct (strict_eq k Main); simpl; by rewrite IH.
Qed.

Lemma onMainClosed_eq s :
  onMainClosed s =
    (Normal tt,
     mkState (JSMap.delete Main (_windows s)) (ipc s)
       (close_others (_windows s) (heap s)) (focused s)
       (if DEBUG then effects s ++ [UtilLog "The main window was closed."]
        else effects s)).
Proof.
  unfold onMainClosed, bind, when, gets. destruct DEBUG; simpl;
    by rewrite forEach_close_others.
Qed.

Lemma onAboutClosed_eq s :
  onAboutClosed s =
    (Normal tt,
     mkState (JSMap.delete About (_windows s)) (ipc s) (heap s) (focused s)
       (if DEBUG
        then effects s ++ [UtilLog "The about application window was closed."]
        else effects s)).
Proof. unfold onAboutClosed, bind, when. by destruct DEBUG. Qed.

(** With one entry per key and no key besides [Main] and [About], the loop
    reaches at most the [About] window. *)
Lemma close_others_shape m hp :
  NoDup (JSMap.keys m) →
  (∀ k, k ∈ JSMap.keys m → k = Main ∨ k = About) →
  close_others m hp =
    match JSMap.get About m with
    | Some b => alter request_close b hp
    | None => hp
    end.
Proof.
  revert hp. induction m as [|[k v] m IH]; intros hp; simpl; [done|].
  intros [Hnotin Hnd]%NoDup_cons Hkeys.
  assert (∀ k0, k0 ∈ JSMap.keys m → k0 = Main ∨ k0 = About) as Hkeys'.
  { intros k0 Hk0. apply Hkeys. by apply list_elem_of_further. }
  rewrite (IH _ Hnd Hkeys').
  destruct (Hkeys k) as [-> | ->]; [apply list_elem_of_here | |].
  - rewrite (strict_eq_true Main Main eq_refl).
    by rewrite decide_False by discriminate.
  - rewrite (strict_eq_false About Main) by discriminate.
    rewrite decide_True by done.
    by apply get_None_keys in Hnotin as ->.
Qed.

(** What the toolkit's ['closed'] does to a live window with one listener. *)
Lemma emit_closed_alive s h w l :
  heap s !! h = Some w → destroyed w = false →
  listeners w = [("closed", l)] →
  emit_closed h s =
    (run_listener l ;; ret tt)
      (mkState (_windows s) (ipc s) (alter destroy h (heap s))
         (if decide (focused s = Some h) then None else focused s)
         (effects s)).
Proof.
  intros Hw Halive Hl. unfold emit_closed, bind at 1, gets. rewrite Hw, Halive.
  unfold listeners_for. rewrite Hl. simpl.
  unfold bind at 1, bind at 1, update_window, modify. simpl.
  by case_decide.
Qed.

Lemma emit_closed_gone s h :
  (heap s !! h = None ∨ ∃ w, heap s !! h = Some w ∧ destroyed w = true) →
  emit_closed h s = (Normal tt, s).
Proof.
  unfold emit_closed, bind, gets. intros [-> | (w & -> & ->)]; done.
Qed.

Lemma wf_initial : wf initial.
Proof. split; simpl; [done | apply NoDup_nil_2 | done | done]. Qed.

Lemma wf_types s type h :
  wf s → JSMap.get type (_windows s) = Some h → type = Main ∨ type = About.
Proof.
  intros Hwf Hget. destruct (wf_registry s Hwf type h Hget) as (l & _ & <-).
  destruct l; [by left | by right].
Qed.

Lemma wf_keys_types s k :
  wf s → k ∈ JSMap.keys (_windows s) → k = Main ∨ k = About.
Proof.
  intros Hwf [h Hh]%keys_get. by apply wf_types with s h.
Qed.

(** A step that keeps the IPC binding, adds no entry and touches neither
    the listeners of a window nor the life of a registered one keeps the
    invariant. *)
Lemma wf_update s s' :
  wf s →
  ipc s' = ipc s →
  NoDup (JSMap.keys (_windows s')) →
  (∀ h, listeners <$> heap s' !! h = listeners <$> heap s !! h) →
  (∀ type h, JSMap.get type (_windows s') = Some h →
     JSMap.get type (_windows s) = Some h
     ∧ lifecycle <$> heap s' !! h = lifecycle <$> heap s !! h) →
  wf s'.
Proof.
  intros Hwf Hipc Hnd Hls Hreg. split.
  - rewrite Hipc. apply Hwf.
  - done.
  - intros h w' Hw'. specialize (Hls h). rewrite Hw' in Hls. simpl in Hls.
    destruct (heap s !! h) as [w|] eqn:Hw; [|done].
    simpl in Hls. destruct (wf_heap s Hwf h w Hw) as [l Hl].
    exists l. congruence.
  - intros type h Hget. destruct (Hreg type h Hget) as [Hold ->].
    by apply Hwf.
Qed.

(** Only the windows change, and no window changes its listeners or its
    life. *)
Lemma wf_alter s f i :
  (∀ w, lifecycle (f w) = lifecycle w) →
  wf s → wf (with_heap (alter f i (heap s)) s).
Proof.
  intros Hf Hwf. apply (wf_update s); simpl; [done | done | apply Hwf | |].
  - intros h. apply fmap_lookup_alter. intros w.
    specialize (Hf w). unfold lifecycle in Hf. congruence.
  - intros type h Hget. split; [done|]. by apply fmap_lookup_alter.
Qed.

(** Registering a new live window under the key of its listener. *)
Lemma wf_register s l w :
  wf s → listeners w = [("closed", l)] → destroyed w = false →
  wf (mkState (JSMap.set (owner l) (length (heap s)) (_windows s)) (ipc s)
        (heap s ++ [w]) (focused s) (effects s)).
Proof.
  intros Hwf Hl Halive. split; simpl.
  - apply Hwf.
  - apply NoDup_keys_set, Hwf.
  - intros h w' [Hw' | [Hge Hw']]%lookup_app_Some.
    + by apply (wf_heap s Hwf h).
    + apply list_lookup_singleton_Some in Hw' as [_ <-]. eauto.
  - intros type h Hget. destruct (decide (owner l = type)) as [<-|Hne].
    + rewrite get_set_eq in Hget. injection Hget as <-.
      exists l. split; [|done].
      rewrite list_lookup_middle by done. simpl. unfold lifecycle.
      by rewrite Hl, Halive.
    + rewrite get_set_ne in Hget by done.
      destruct (wf_registry s Hwf type h Hget) as (l' & Hlc & Hown).
      exists l'. split; [|done].
      destruct (heap s !! h) as [w0|] eqn:Hw0; [|done].
      by rewrite (lookup_app_l_Some _ _ _ _ Hw0).
Qed.
End Invariant.

(** ** Every event keeps the invariant *)

Section Steps.
Context {ext : Externals}.
Import WindowManager.

Lemma wf_show s type : wf s → wf (show type s).2.
Proof.
  intros Hwf. destruct (decide (type = Main)) as [->|HM].
  { rewrite show_Main.
    destruct (JSMap.get Main (_windows s)) as [h|] eqn:Hget.
    - by rewrite (_showMain_present s h Hget).
    - rewrite (_showMain_absent s Hget). by apply (wf_register s MainClosed). }
  destruct (decide (type = About)) as [->|HA].
  { rewrite show_About.
    destruct (JSMap.get About (_windows s)) as [h|] eqn:Hget.
    - by rewrite (_showAbout_present s h Hget).
    - rewrite (_showAbout_absent s Hget). by apply (wf_register s AboutClosed). }
  destruct (decide (type = GraphicEqualizer)) as [->|HG].
  - exact Hwf.
  - by rewrite show_default_is_noop.
Qed.

(** [show] of one type leaves the entry of every other type alone. *)
Lemma show_other s type (type' : jsval) :
  type ≠ type' →
  JSMap.get type' (_windows (show type s).2) = JSMap.get type' (_windows s).
Proof.
  intros Hne. destruct (decide (type = Main)) as [->|HM].
  { rewrite show_Main.
    destruct (JSMap.get Main (_windows s)) as [h|] eqn:Hget.
    - by rewrite (_showMain_present s h Hget).
    - rewrite (_showMain_absent s Hget). simpl. by apply get_set_ne. }
  destruct (decide (type = About)) as [->|HA].
  { rewrite show_About.
    destruct (JSMap.get About (_windows s)) as [h|] eqn:Hget.
    - by rewrite (_showAbout_present s h Hget).
    - rewrite (_showAbout_absent s Hget). simpl. by apply get_set_ne. }
  destruct (decide (type = GraphicEqualizer)) as [->|HG].
  - reflexivity.
  - by rewrite show_default_is_noop.
Qed.

Lemma toggle_cases s type :
  toggle type s = (Normal tt, s)
  ∨ (∃ h f, (∀ w, lifecycle (f w) = lifecycle w)
            ∧ toggle type s = (Normal tt, with_heap (alter f h (heap s)) s))
  ∨ (type ≠ Main ∧ JSMap.get type (_windows s) = None
     ∧ toggle type s = show type s).
Proof.
  destruct (decide (type = Main)) as [->|HM]; [by left|]. right.
  destruct (JSMap.get type (_windows s)) as [h|] eqn:Hget.
  - left. unfold toggle. rewrite (strict_eq_false _ _ HM).
    unfold bind, windows_get, gets, win_isVisible. rewrite Hget. simpl.
    destruct (match heap s !! h with Some w => visible w | None => false end).
    + exists h, (set_visible false). split; [by intros []|done].
    + exists h, (set_visible true). split; [by intros []|done].
  - right. split; [done|]. split; [done|]. unfold toggle.
    rewrite (strict_eq_false _ _ HM). unfold bind, windows_get, gets.
    by rewrite Hget.
Qed.

Lemma wf_toggle s type : wf s → wf (toggle type s).2.
Proof.
  intros Hwf.
  destruct (toggle_cases s type) as [-> | [(h & f & Hf & ->) | (_ & _ & ->)]].
  - done.
  - by apply wf_alter.
  - by apply wf_show.
Qed.

Lemma close_cases s type :
  close type s = (Normal tt, s)
  ∨ ∃ h, close type s = (Normal tt, with_heap (alter request_close h (heap s)) s).
Proof.
  unfold close, bind, windows_get, gets.
  destruct (JSMap.get type (_windows s)) as [h|]; [right; by exists h | by left].
Qed.

Lemma wf_close s type : wf s → wf (close type s).2.
Proof.
  intros Hwf. destruct (close_cases s type) as [-> | [h ->]]; [done|].
  by apply wf_alter.
Qed.

Lemma wf_reload s : wf s → wf (reload s).2.
Proof.
  intros Hwf. unfold reload, bind, gets. destruct (focused s); [|done].
  by apply wf_alter.
Qed.

Lemma wf_toggleDevTools s : wf s → wf (toggleDevTools s).2.
Proof.
  intros Hwf. unfold toggleDevTools, bind, gets. destruct (focused s); [|done].
  by apply wf_alter.
Qed.

(** The state after ['closed'] of a window: unchanged when the window is
    unknown or already gone; otherwise the window is destroyed and its
    listener has run. *)
Lemma emit_closed_cases s h :
  wf s →
  emit_closed h s = (Normal tt, s)
  ∨ ∃ w l hp' foc eff,
      heap s !! h = Some w ∧ destroyed w = false
      ∧ listeners w = [("closed", l)]
      ∧ hp' = match l with
              | MainClosed => close_others (_windows s) (alter destroy h (heap s))
              | AboutClosed => alter destroy h (heap s)
              end
      ∧ emit_closed h s =
          (Normal tt,
           mkState (JSMap.delete (owner l) (_windows s)) (ipc s) hp' foc eff).
Proof.
  intros Hwf. destruct (heap s !! h) as [w|] eqn:Hw.
  2:{ left. apply emit_closed_gone. by left. }
  destruct (destroyed w) eqn:Hd.
  { left. apply emit_closed_gone. right. eauto. }
  right. destruct (wf_heap s Hwf h w Hw) as [l Hl].
  rewrite (emit_closed_alive s h w l Hw Hd Hl). unfold bind.
  destruct l; simpl.
  - rewrite onMainClosed_eq. simpl. by eexists w, MainClosed, _, _, _.
  - rewrite onAboutClosed_eq. simpl. by eexists w, AboutClosed, _, _, _.
Qed.

Lemma wf_emit_closed s h : wf s → wf (emit_closed h s).2.
Proof.
  intros Hwf.
  destruct (emit_closed_cases s h Hwf)
    as [-> | (w & l & hp' & foc & eff & Hw & Hd & Hl & Hhp & ->)]; [done|].
  simpl. apply (wf_update s); simpl; [done | done | | |].
  - apply NoDup_keys_delete, Hwf.
  - intros h'. subst hp'. destruct l.
    + rewrite fmap_lookup_close_others by done. by apply fmap_lookup_alter.
    + by apply fmap_lookup_alter.
  - intros type h' Hget.
    destruct (decide (owner l = type)) as [<-|Hne];
      [by rewrite get_delete_eq in Hget|].
    rewrite get_delete_ne in Hget by done. split; [done|].
    assert (h ≠ h') as Hh.
    { intros <-. destruct (wf_registry s Hwf type h Hget) as (l' & Hlc & Hown).
      rewrite Hw in Hlc. simpl in Hlc. unfold lifecycle in Hlc.
      rewrite Hl in Hlc. injection Hlc as <- _. done. }
    subst hp'. destruct l.
    + rewrite fmap_lookup_close_others by done.
      by rewrite list_lookup_alter_ne.
    + by rewrite list_lookup_alter_ne.
Qed.

(** An inbound message on a manager in a well-formed state. *)
Lemma emit_ipc_eq s channel ev url :
  wf s →
  emit_ipc channel ev url s =
    (Normal tt,
     if decide (IPCKeys_RequestShowURL = channel)
     then with_effects (effects s ++ [ConsoleLog url; OpenExternal url;
                                      Send (sender ev) IPCKeys_FinishShowURL]) s
     else s).
Proof.
  intros Hwf. unfold emit_ipc, bind at 1, gets. rewrite (wf_ipc s Hwf).
  rewrite filter_cons, filter_nil. simpl. case_decide; simpl; [|done].
  unfold bind, _onRequestShowURL, console_log, shell_openExternal,
    sender_send, emit, modify, bind, with_effects. simpl.
  by rewrite <- !app_assoc.
Qed.

Lemma wf_emit_ipc s channel ev url : wf s → wf (emit_ipc channel ev url s).2.
Proof.
  intros Hwf. rewrite emit_ipc_eq by done. simpl. case_decide; [|done].
  by apply (wf_update s); simpl; [| | apply Hwf | |].
Qed.

Lemma wf_set_focus s o : wf s → wf (set_focus o s).2.
Proof.
  intros Hwf. unfold set_focus, modify. simpl.
  assert (∀ f, wf (with_focused f s)) as Hfoc.
  { intros f. by apply (wf_update s); simpl; [| | apply Hwf | |]. }
  destruct o as [h|]; [|done].
  destruct (heap s !! h) as [w|]; [|done]. by destruct (destroyed w).
Qed.

Lemma wf_step s e : wf s → wf (step s e).
Proof.
  intros Hwf. unfold step. destruct e; simpl.
  - done.
  - by apply wf_close.
  - by apply wf_show.
  - by apply wf_toggle.
  - by apply wf_reload.
  - by apply wf_toggleDevTools.
  - by apply wf_emit_closed.
  - by apply wf_emit_ipc.
  - by apply wf_set_focus.
Qed.

Lemma run_cons e tr s : run (e :: tr) s = run tr (step s e).
Proof. done. Qed.

Lemma wf_run tr s : wf s → wf (run tr s).
Proof.
  revert s. induction tr as [|e tr IH]; intros s Hwf; [done|].
  rewrite run_cons. by apply IH, wf_step.
Qed.

Lemma wf_reachable tr : wf (run tr initial).
Proof. apply wf_run, wf_initial. Qed.
End Steps.

(** ** Histories of a manager *)

Section Histories.
Context {ext : Externals}.
Import WindowManager.

(** An absent entry stays absent through every event that does not run
    [show] for its type. *)
Lemma absent_step s e type :
  wf s → JSMap.get type (_windows s) = None → invokes_show type e = false →
  JSMap.get type (_windows (step s e)) = None.
Proof.
  intros Hwf Habs He. unfold step.
  destruct e as [t|t|t|t| | |h|c ev u|o]; simpl.
  - done.
  - by destruct (close_cases s t) as [-> | [h ->]].
  - simpl in He. apply bool_decide_eq_false in He. by rewrite show_other.
  - destruct (toggle_cases s t)
      as [-> | [(h & f & _ & ->) | (HM & Hnone & ->)]]; [done | done |].
    rewrite show_other; [done|]. intros ->. simpl in He.
    rewrite bool_decide_eq_true_2 in He by done.
    by rewrite (strict_eq_false _ _ HM) in He.
  - unfold reload, bind, gets. by destruct (focused s).
  - unfold toggleDevTools, bind, gets. by destruct (focused s).
  - destruct (emit_closed_cases s h Hwf)
      as [-> | (w & l & hp' & foc & eff & _ & _ & _ & _ & ->)]; [done|].
    simpl. by apply get_delete_None.
  - rewrite emit_ipc_eq by done. simpl. by case_decide.
  - unfold set_focus, modify. simpl. destruct o as [h|]; [|done].
    destruct (heap s !! h) as [w|]; [|done]. by destruct (destroyed w).
Qed.

Lemma absent_run tr s type :
  wf s → JSMap.get type (_windows s) = None →
  (∀ e, e ∈ tr → invokes_show type e = false) →
  JSMap.get type (_windows (run tr s)) = None.
Proof.
  revert s. induction tr as [|e tr IH]; intros s Hwf Habs Htr; [done|].
  rewrite run_cons. apply IH.
  - by apply wf_step.
  - apply absent_step; [done | done |]. apply Htr, list_elem_of_here.
  - intros e' He'. by apply Htr, list_elem_of_further.
Qed.

(** The close notification of a registered window removes its entry. *)
Lemma closed_removes_entry s type h :
  wf s → JSMap.get type (_windows s) = Some h →
  JSMap.get type (_windows (step s (Emit_closed h))) = None.
Proof.
  intros Hwf Hget. unfold step. simpl.
  destruct (wf_registry s Hwf type h Hget) as (l & Hlc & Hown).
  destruct (heap s !! h) as [w|] eqn:Hw; [|done].
  injection Hlc as Hl Hd.
  rewrite (emit_closed_alive s h w l Hw Hd Hl). unfold bind. subst type.
  destruct l; simpl.
  - rewrite onMainClosed_eq. simpl. apply get_delete_eq.
  - rewrite onAboutClosed_eq. simpl. apply get_delete_eq.
Qed.

(** C7: [getWindow( type )] returns the registry's answer for [type] and
    leaves the state as it was.  On a constructed manager the answer is
    [undefined] after any history that never ran [show( type )], and, once
    the window registered for [type] has reported its closing, after any
    further history that never ran [show( type )].  For [Main] and [About],
    [show( type )] ends normally and [getWindow( type )] then returns a
    window. *)
Theorem getWindow_is_lookup (type : jsval) :
  (∀ s, getWindow type s = (Normal (JSMap.get type (_windows s)), s))
  ∧ (∀ tr, (∀ e, e ∈ tr → invokes_show type e = false) →
       (getWindow type (run tr initial)).1 = Normal None)
  ∧ (∀ tr0 h tr,
       JSMap.get type (_windows (run tr0 initial)) = Some h →
       (∀ e, e ∈ tr → invokes_show type e = false) →
       (getWindow type (run (Emit_closed h :: tr) (run tr0 initial))).1
       = Normal None)
  ∧ (∀ s, type = Main ∨ type = About →
       (show type s).1 = Normal tt
       ∧ ∃ h, (getWindow type (show type s).2).1 = Normal (Some h)).
Proof.
  split; [done|]. split; [|split].
  - intros tr Htr. simpl. f_equal.
    apply absent_run; [apply wf_initial | done | done].
  - intros tr0 h tr Hget Htr. simpl. f_equal.
    change (fold_left step tr (step (run tr0 initial) (Emit_closed h)))
      with (run tr (step (run tr0 initial) (Emit_closed h))).
    apply absent_run; [apply wf_step, wf_reachable | | done].
    apply closed_removes_entry; [apply wf_reachable | done].
  - intros s Htype. destruct (show_registers type s Htype) as [Hnormal [h Hh]].
    split; [done|]. exists h. simpl. by rewrite Hh.
Qed.

(** C1 (as amended): on a constructed manager whose registry holds the main
    window, the close notification of that window removes the [Main] entry,
    and every other registered window keeps its entry and receives exactly
    one close request; the entry of such a window is removed when its own
    close notification is delivered next. *)
Theorem Main_closed_requests_cascade (tr : list event) (hm : handle) :
  JSMap.get Main (_windows (run tr initial)) = Some hm →
  JSMap.get Main (_windows (step (run tr initial) (Emit_closed hm))) = None
  ∧ ∀ type h,
      type ≠ Main →
      JSMap.get type (_windows (run tr initial)) = Some h →
      JSMap.get type (_windows (step (run tr initial) (Emit_closed hm))) = Some h
      ∧ (∃ w, heap (run tr initial) !! h = Some w
              ∧ heap (step (run tr initial) (Emit_closed hm)) !! h
                = Some (request_close w))
      ∧ JSMap.get type
          (_windows (step (step (run tr initial) (Emit_closed hm)) (Emit_closed h)))
        = None.
Proof.
  set (s := run tr initial). intros Hmain.
  assert (wf s) as Hwf by apply wf_reachable.
  split; [by apply closed_removes_entry|].
  intros type h Htype Hget.
  assert (JSMap.get type (_windows (step s (Emit_closed hm))) = Some h) as Hkept.
  { unfold step. simpl.
    destruct (emit_closed_cases s hm Hwf)
      as [-> | (w & l & hp' & foc & eff & Hw & Hd & Hl & _ & ->)]; [done|].
    simpl. destruct (wf_registry s Hwf Main hm Hmain) as (l' & Hlc & Hown).
    rewrite Hw in Hlc. injection Hlc as Hll _. rewrite Hl in Hll.
    injection Hll as <-. rewrite Hown. by rewrite get_delete_ne. }
  split; [exact Hkept|]. split.
  - destruct (wf_registry s Hwf Main hm Hmain) as (lm & Hlcm & Hownm).
    destruct (wf_registry s Hwf type h Hget) as (l & Hlc & Hown).
    destruct (heap s !! hm) as [wm|] eqn:Hwm; [|done].
    destruct (heap s !! h) as [w|] eqn:Hw; [|done].
    injection Hlcm as Hlm Hdm. injection Hlc as Hl Hd.
    assert (lm = MainClosed) as -> by (by destruct lm).
    assert (type = About) as ->.
    { destruct (wf_types s type h Hwf Hget); done. }
    assert (hm ≠ h) as Hne.
    { intros ->. rewrite Hwm in Hw. injection Hw as ->.
      rewrite Hlm in Hl. injection Hl as <-. done. }
    exists w. split; [done|]. unfold step. simpl.
    rewrite (emit_closed_alive s hm wm MainClosed Hwm Hdm Hlm). unfold bind.
    simpl. rewrite onMainClosed_eq. simpl.
    rewrite close_others_shape;
      [| apply Hwf | intros k Hk; by apply wf_keys_types with s].
    rewrite Hget. rewrite list_lookup_alter_eq.
    rewrite list_lookup_alter_ne by done.
    exact (f_equal (fmap request_close) Hw).
  - apply closed_removes_entry; [apply wf_step, Hwf | exact Hkept].
Qed.

(** C8: on a constructed manager, after any history, one inbound message on
    the [RequestShowURL] channel with URL [url] ends normally and adds to the
    outputs, in this order, [console.log( url )], one
    [shell.openExternal( url )] with that very string and one
    [FinishShowURL] message to the sender of the request; nothing else
    changes.  No property of [url] is examined, and the answer of the shell
    is not looked at. *)
Theorem RequestShowURL_opens_once_and_acknowledges_once
    (tr : list event) (ev : IPCEvent) (url : string) :
  emit_ipc IPCKeys_RequestShowURL ev url (run tr initial) =
    (Normal tt,
     with_effects
       (effects (run tr initial)
        ++ [ConsoleLog url; OpenExternal url;
            Send (sender ev) IPCKeys_FinishShowURL])
       (run tr initial))
  ∧ opened (effects (step (run tr initial)
                       (Emit_ipc IPCKeys_RequestShowURL ev url)))
    = opened (effects (run tr initial)) ++ [url]
  ∧ sent (effects (step (run tr initial)
                     (Emit_ipc IPCKeys_RequestShowURL ev url)))
    = sent (effects (run tr initial)) ++ [(sender ev, IPCKeys_FinishShowURL)].
Proof.
  assert (wf (run tr initial)) as Hwf by apply wf_reachable.
  unfold step. simpl. rewrite (emit_ipc_eq _ _ ev url Hwf).
  rewrite decide_True by done. simpl. unfold opened, sent.
  by rewrite !omap_app.
Qed.
End Histories.

(** ** Life of a window *)

Section Lifecycle.
Context {ext : Externals}.
Import WindowManager.

(** The three ways [show] can go. *)
Lemma show_cases s type :
  show type s = (Normal tt, s)
  ∨ (type = JUndefined
     ∧ show type s
       = (Throw (TypeError "this._showGraphicEqualizer is not a function"), s))
  ∨ ∃ l w,
      type = owner l ∧ JSMap.get type (_windows s) = None
      ∧ config w = blueprint l ∧ visible w = true
      ∧ closeRequests w = 0 ∧ destroyed w = false
      ∧ show type s =
          (Normal tt,
           mkState (JSMap.set type (length (heap s)) (_windows s)) (ipc s)
             (heap s ++ [w]) (focused s) (effects s)).
Proof.
  destruct (decide (type = Main)) as [->|HM].
  { rewrite show_Main.
    destruct (JSMap.get Main (_windows s)) as [h|] eqn:Hget.
    - left. by apply _showMain_present with h.
    - right. right. rewrite (_showMain_absent s Hget).
      eexists MainClosed, _. repeat split; [..|reflexivity]; reflexivity. }
  destruct (decide (type = About)) as [->|HA].
  { rewrite show_About.
    destruct (JSMap.get About (_windows s)) as [h|] eqn:Hget.
    - left. by apply _showAbout_present with h.
    - right. right. rewrite (_showAbout_absent s Hget).
      eexists AboutClosed, _. repeat split; [..|reflexivity]; reflexivity. }
  destruct (decide (type = GraphicEqualizer)) as [->|HG].
  - right. left. by split.
  - left. by apply show_default_is_noop.
Qed.

(** [toggle] on a type that has its window: the window's visibility is
    flipped, nothing else. *)
Lemma toggle_present s type h :
  type ≠ Main → JSMap.get type (_windows s) = Some h →
  toggle type s =
    (Normal tt,
     with_heap
       (alter (set_visible
                 (negb match heap s !! h with
                       | Some w => visible w
                       | None => false
                       end)) h (heap s)) s).
Proof.
  intros HM Hget. unfold toggle. rewrite (strict_eq_false _ _ HM).
  unfold bind, windows_get, gets, win_isVisible. rewrite Hget. simpl.
  by destruct (match heap s !! h with Some w => visible w | None => false end).
Qed.

Lemma toggle_absent s type :
  type ≠ Main → JSMap.get type (_windows s) = None →
  toggle type s = show type s.
Proof.
  intros HM Hget. unfold toggle. rewrite (strict_eq_false _ _ HM).
  unfold bind, windows_get, gets. by rewrite Hget.
Qed.

Lemma close_present s type h :
  JSMap.get type (_windows s) = Some h →
  close type s = (Normal tt, with_heap (alter request_close h (heap s)) s).
Proof. intros Hget. unfold close, bind, windows_get, gets. by rewrite Hget. Qed.

(** The whole state after the close notification of a live window. *)
Lemma emit_closed_state s h w l :
  heap s !! h = Some w → destroyed w = false →
  listeners w = [("closed", l)] →
  emit_closed h s =
    (Normal tt,
     mkState (JSMap.delete (owner l) (_windows s)) (ipc s)
       match l with
       | MainClosed => close_others (_windows s) (alter destroy h (heap s))
       | AboutClosed => alter destroy h (heap s)
       end
       (if decide (focused s = Some h) then None else focused s)
       (if DEBUG then effects s ++ [UtilLog (closed_message l)]
        else effects s)).
Proof.
  intros Hw Hd Hl. rewrite (emit_closed_alive s h w l Hw Hd Hl). unfold bind.
  destruct l; simpl.
  - by rewrite onMainClosed_eq.
  - by rewrite onAboutClosed_eq.
Qed.

Lemma length_close_others m hp : length (close_others m hp) = length hp.
Proof.
  revert hp. induction m as [|[k v] m IH]; intros hp; simpl; [done|].
  rewrite IH. destruct (strict_eq k Main); [done|]. apply length_alter.
Qed.

(** A registered window, unpacked. *)
Lemma wf_registered s type h :
  wf s → JSMap.get type (_windows s) = Some h →
  ∃ w l, heap s !! h = Some w ∧ destroyed w = false
         ∧ listeners w = [("closed", l)] ∧ owner l = type.
Proof.
  intros Hwf Hget. destruct (wf_registry s Hwf type h Hget) as (l & Hlc & Hown).
  destruct (heap s !! h) as [w|] eqn:Hw; [|done].
  injection Hlc as Hl Hd. by exists w, l.
Qed.

Lemma wf_undefined_absent s : wf s → JSMap.get JUndefined (_windows s) = None.
Proof.
  intros Hwf. destruct (JSMap.get JUndefined (_windows s)) as [h|] eqn:Hget;
    [|done].
  by destruct (wf_types s JUndefined h Hwf Hget).
Qed.
End Lifecycle.

(** ** What holds after every history *)

Section Reachable.
Context {ext : Externals}.
Import WindowManager.

Lemma configured_update s s' :
  (∀ h, config <$> heap s' !! h = config <$> heap s !! h) →
  configured s → configured s'.
Proof.
  intros Hsame Hs h w' Hw'. specialize (Hsame h). rewrite Hw' in Hsame.
  destruct (heap s !! h) as [w|] eqn:Hw; [|done].
  injection Hsame as Ho Hm Hu Hls. destruct (Hs h w Hw) as [l Hl].
  exists l. rewrite <- Hl. unfold config. by rewrite Ho, Hm, Hu, Hls.
Qed.

Lemma configured_alter s f i :
  (∀ w, config (f w) = config w) →
  configured s → configured (with_heap (alter f i (heap s)) s).
Proof.
  intros Hf. apply configured_update. intros h. simpl.
  by apply fmap_lookup_alter.
Qed.

Lemma configured_step s e : wf s → configured s → configured (step s e).
Proof.
  intros Hwf Hs. unfold step.
  destruct e as [t|t|t|t| | |h|c ev u|o]; simpl.
  - done.
  - destruct (close_cases s t) as [-> | [h ->]]; [done|].
    by apply configured_alter.
  - destruct (show_cases s t)
      as [-> | [[_ ->] | (l & w & _ & _ & Hcfg & _ & _ & _ & ->)]];
      [done | done |].
    intros h w' [Hold | [_ Hnew]]%lookup_app_Some.
    + by apply (Hs h).
    + apply list_lookup_singleton_Some in Hnew as [_ <-]. by exists l.
  - destruct (decide (t = Main)) as [->|HM]; [done|].
    destruct (JSMap.get t (_windows s)) as [h|] eqn:Hget.
    + rewrite (toggle_present s t h HM Hget). by apply configured_alter.
    + rewrite (toggle_absent s t HM Hget).
      destruct (show_cases s t)
        as [-> | [[_ ->] | (l & w & _ & _ & Hcfg & _ & _ & _ & ->)]];
        [done | done |].
      intros h w' [Hold | [_ Hnew]]%lookup_app_Some.
      * by apply (Hs h).
      * apply list_lookup_singleton_Some in Hnew as [_ <-]. by exists l.
  - unfold reload, bind, gets. destruct (focused s); [|done].
    by apply configured_alter.
  - unfold toggleDevTools, bind, gets. destruct (focused s); [|done].
    by apply configured_alter.
  - destruct (emit_closed_cases s h Hwf)
      as [-> | (w & l & hp' & foc & eff & _ & _ & _ & -> & ->)]; [done|].
    apply (configured_update s); [|done]. intros h'. simpl. destruct l.
    + rewrite fmap_lookup_close_others by done. by apply fmap_lookup_alter.
    + by apply fmap_lookup_alter.
  - rewrite emit_ipc_eq by done. simpl. by case_decide.
  - unfold set_focus, modify. simpl. destruct o as [h|]; [|done].
    destruct (heap s !! h) as [w|]; [|done]. by destruct (destroyed w).
Qed.

Lemma configured_run tr s : wf s → configured s → configured (run tr s).
Proof.
  revert s. induction tr as [|e tr IH]; intros s Hwf Hs; [done|].
  rewrite run_cons. apply IH; [by apply wf_step | by apply configured_step].
Qed.

Lemma configured_reachable tr : configured (run tr initial).
Proof. apply configured_run; [apply wf_initial | by intros h w]. Qed.

(** X1: after any history of a constructed manager, a window the registry
    holds for a type exists, has not been closed, and is set up as
    [_showMain] (for [Main]) or [_showAbout] (for [About]) set it up: its
    size, menu, page and ['closed'] listener are those of its type. *)
Theorem registered_window_is_live_and_set_up
    (tr : list event) (type : jsval) (h : handle) :
  JSMap.get type (_windows (run tr initial)) = Some h →
  ∃ w l, owner l = type
         ∧ heap (run tr initial) !! h = Some w
         ∧ destroyed w = false
         ∧ config w = blueprint l.
Proof.
  intros Hget.
  destruct (wf_registered _ type h (wf_reachable tr) Hget)
    as (w & l & Hw & Hd & Hl & Hown).
  exists w, l. split; [done|]. split; [done|]. split; [done|].
  destruct (configured_reachable tr h w Hw) as [l' Hcfg].
  rewrite Hcfg. f_equal.
  assert (listeners w = (blueprint l').2) as Hl' by (by rewrite <- Hcfg).
  rewrite Hl in Hl'. by destruct l, l'.
Qed.

(** X2: after any history of a constructed manager the registry has one
    entry per key, no key besides ['main'] and ['about'], hence at most two
    entries, and the two types never share a window. *)
Theorem registry_has_one_window_per_type (tr : list event) :
  NoDup (JSMap.keys (_windows (run tr initial)))
  ∧ (∀ k, k ∈ JSMap.keys (_windows (run tr initial)) → k = Main ∨ k = About)
  ∧ (length (_windows (run tr initial)) <= 2)%nat
  ∧ (∀ h, JSMap.get Main (_windows (run tr initial)) = Some h →
          JSMap.get About (_windows (run tr initial)) ≠ Some h).
Proof.
  pose proof (wf_reachable tr) as Hwf.
  assert (∀ k, k ∈ JSMap.keys (_windows (run tr initial)) →
               k = Main ∨ k = About) as Hkeys.
  { intros k Hk. by apply wf_keys_types with (run tr initial). }
  split; [apply Hwf|]. split; [exact Hkeys|]. split.
  - assert (JSMap.keys (_windows (run tr initial)) ⊆+ [Main; About]) as Hsub.
    { apply NoDup_submseteq; [apply Hwf|]. intros k Hk.
      destruct (Hkeys k Hk) as [-> | ->].
      - apply list_elem_of_here.
      - apply list_elem_of_further, list_elem_of_here. }
    apply submseteq_length in Hsub. unfold JSMap.keys in Hsub.
    rewrite length_map in Hsub. exact Hsub.
  - intros h HM HA.
    destruct (wf_registered _ Main h Hwf HM) as (w & l & Hw & _ & Hl & Hown).
    destruct (wf_registered _ About h Hwf HA) as (w' & l' & Hw' & _ & Hl' & Hown').
    rewrite Hw in Hw'. injection Hw' as <-. rewrite Hl in Hl'.
    injection Hl' as <-. rewrite Hown in Hown'. discriminate.
Qed.
Lemma lifecycle_lookup (hp hp' : list BrowserWindow) (h : handle) w' :
  lifecycle <$> hp' !! h = lifecycle <$> hp !! h →
  hp' !! h = Some w' →
  ∃ w, hp !! h = Some w ∧ listeners w = listeners w'
       ∧ destroyed w = destroyed w'.
Proof.
  intros Hsame Hw'. rewrite Hw' in Hsame.
  destruct (hp !! h) as [w|]; [|done].
  change (Some (listeners w', destroyed w') = Some (listeners w, destroyed w))
    in Hsame.
  injection Hsame as Hl Hd. by exists w.
Qed.

Lemma no_orphans_update s s' :
  no_orphans s →
  _windows s' = _windows s →
  (∀ h, lifecycle <$> heap s' !! h = lifecycle <$> heap s !! h) →
  no_orphans s'.
Proof.
  intros Hs Hwin Hsame h w' Hw' Hd'.
  destruct (lifecycle_lookup _ _ h w' (Hsame h) Hw') as (w & Hw & Hl & Hd).
  rewrite Hwin, <- Hl. apply Hs; [done | congruence].
Qed.

Lemma no_orphans_alter s f i :
  (∀ w, lifecycle (f w) = lifecycle w) →
  no_orphans s → no_orphans (with_heap (alter f i (heap s)) s).
Proof.
  intros Hf Hs. apply (no_orphans_update s); [done | done |].
  intros h. simpl. by apply fmap_lookup_alter.
Qed.

Lemma no_orphans_register s l w :
  no_orphans s →
  JSMap.get (owner l) (_windows s) = None →
  listeners w = [("closed", l)] →
  no_orphans (mkState (JSMap.set (owner l) (length (heap s)) (_windows s))
                (ipc s) (heap s ++ [w]) (focused s) (effects s)).
Proof.
  intros Hs Habs Hl h w' Hw' Hd'. simpl in *.
  apply lookup_app_Some in Hw' as [Hold | [Hge Hnew]].
  - destruct (Hs h w' Hold Hd') as (l' & Hl' & Hreg). exists l'.
    split; [done|]. rewrite get_set_ne; [done|].
    intros Heq. rewrite Heq in Habs. congruence.
  - apply list_lookup_singleton_Some in Hnew as [Hh <-]. exists l.
    split; [done|]. rewrite get_set_eq. f_equal. lia.
Qed.

Lemma no_orphans_show s type : no_orphans s → no_orphans (show type s).2.
Proof.
  intros Hs.
  destruct (show_cases s type)
    as [-> | [[_ ->] | (l & w & -> & Habs & Hcfg & _ & _ & _ & ->)]];
    [done | done |].
  apply no_orphans_register; [done | done |].
  assert (listeners w = (blueprint l).2) as -> by (by rewrite <- Hcfg).
  by destruct l.
Qed.

Lemma no_orphans_step s e : wf s → no_orphans s → no_orphans (step s e).
Proof.
  intros Hwf Hs. unfold step.
  destruct e as [t|t|t|t| | |h|c ev u|o]; simpl.
  - done.
  - destruct (close_cases s t) as [-> | [h ->]]; [done|].
    by apply no_orphans_alter.
  - by apply no_orphans_show.
  - destruct (decide (t = Main)) as [->|HM]; [done|].
    destruct (JSMap.get t (_windows s)) as [h|] eqn:Hget.
    + rewrite (toggle_present s t h HM Hget). by apply no_orphans_alter.
    + rewrite (toggle_absent s t HM Hget). by apply no_orphans_show.
  - unfold reload, bind, gets. destruct (focused s); [|done].
    by apply no_orphans_alter.
  - unfold toggleDevTools, bind, gets. destruct (focused s); [|done].
    by apply no_orphans_alter.
  - destruct (emit_closed_cases s h Hwf)
      as [-> | (w0 & l0 & hp' & foc & eff & Hw0 & Hd0 & Hl0 & -> & ->)];
      [done|].
    intros h' w' Hw' Hd'. simpl in *.
    assert (lifecycle <$> match l0 with
                          | MainClosed =>
                              close_others (_windows s)
                                (alter destroy h (heap s))
                          | AboutClosed => alter destroy h (heap s)
                          end !! h'
            = lifecycle <$> alter destroy h (heap s) !! h') as Hsame.
    { destruct l0; [by apply fmap_lookup_close_others | done]. }
    destruct (lifecycle_lookup _ _ h' w' Hsame Hw') as (w1 & Hw1 & Hl1 & Hd1).
    destruct (decide (h = h')) as [<-|Hne].
    { rewrite list_lookup_alter_eq in Hw1.
      apply fmap_Some in Hw1 as (w2 & _ & ->). simpl in Hd1. congruence. }
    rewrite list_lookup_alter_ne in Hw1 by done.
    destruct (Hs h' w1 Hw1) as (l & Hl & Hreg); [congruence|].
    exists l. split; [congruence|].
    rewrite get_delete_ne; [done|]. intros Hown.
    destruct (Hs h w0 Hw0 Hd0) as (l' & Hl' & Hreg').
    rewrite Hl0 in Hl'. injection Hl' as <-.
    rewrite Hown in Hreg'. congruence.
  - rewrite emit_ipc_eq by done. simpl. by case_decide.
  - unfold set_focus, modify. simpl. destruct o as [h|]; [|done].
    destruct (heap s !! h) as [w|]; [|done]. by destruct (destroyed w).
Qed.

Lemma no_orphans_run tr s : wf s → no_orphans s → no_orphans (run tr s).
Proof.
  revert s. induction tr as [|e tr IH]; intros s Hwf Hs; [done|].
  rewrite run_cons. apply IH; [by apply wf_step | by apply no_orphans_step].
Qed.

(** X14: after any history of a constructed manager, every window that has
    not been closed is the window the registry holds for its type; so there
    is never more than one live main window nor more than one live about
    window. *)
Theorem live_window_is_registered
    (tr : list event) (h : handle) (w : BrowserWindow) :
  heap (run tr initial) !! h = Some w →
  destroyed w = false →
  (∃ l, listeners w = [("closed", l)]
        ∧ JSMap.get (owner l) (_windows (run tr initial)) = Some h)
  ∧ ∀ h' w', heap (run tr initial) !! h' = Some w' →
             destroyed w' = false → listeners w' = listeners w → h' = h.
Proof.
  assert (no_orphans (run tr initial)) as Hno.
  { apply no_orphans_run; [apply wf_initial | by intros h0 w0]. }
  intros Hw Hd. destruct (Hno h w Hw Hd) as (l & Hl & Hreg).
  split; [by exists l|].
  intros h' w' Hw' Hd' Hsame.
  destruct (Hno h' w' Hw' Hd') as (l' & Hl' & Hreg').
  rewrite Hsame, Hl in Hl'. injection Hl' as <-. congruence.
Qed.
End Reachable.

(** ** How the operations compose *)

Section Compositions.
Context {ext : Externals}.
Import WindowManager.

Lemma alter_fixed {A} (f : A → A) (l : list A) i x :
  l !! i = Some x → f x = x → alter f i l = l.
Proof.
  intros Hx Hf. apply list_eq. intros j. rewrite list_lookup_alter.
  case_decide as Hij; [subst j|done]. rewrite Hx. simpl. by rewrite Hf.
Qed.

(** X3: on a constructed manager, [close( type )] for a type that has its
    window ends normally, leaves the registry as it is (the entry is still
    there), and gives that window, and no other, one more close request; the
    entry goes when the window's close notification is then delivered. *)
Theorem close_requests_and_notification_removes
    (tr : list event) (type : jsval) (h : handle) :
  JSMap.get type (_windows (run tr initial)) = Some h →
  (close type (run tr initial)).1 = Normal tt
  ∧ _windows (step (run tr initial) (Call_close type))
    = _windows (run tr initial)
  ∧ (∃ w, heap (run tr initial) !! h = Some w
          ∧ heap (step (run tr initial) (Call_close type)) !! h
            = Some (request_close w))
  ∧ (∀ h', h' ≠ h →
       heap (step (run tr initial) (Call_close type)) !! h'
       = heap (run tr initial) !! h')
  ∧ JSMap.get type
      (_windows (run [Call_close type; Emit_closed h] (run tr initial)))
    = None.
Proof.
  set (s := run tr initial). intros Hget.
  assert (wf s) as Hwf by apply wf_reachable.
  destruct (wf_registered s type h Hwf Hget) as (w & l & Hw & _ & _ & _).
  unfold run, step. simpl. rewrite (close_present s type h Hget). simpl.
  split; [done|]. split; [done|]. split; [|split].
  - exists w. split; [done|]. rewrite list_lookup_alter_eq.
    exact (f_equal (fmap request_close) Hw).
  - intros h' Hne. by rewrite list_lookup_alter_ne.
  - apply (closed_removes_entry (with_heap (alter request_close h (heap s)) s));
      [|done].
    by apply wf_alter.
Qed.

(** X4: for a type other than [Main] that has its window, [toggle( type )]
    flips the visibility of that window and leaves the registry alone; a
    second [toggle( type )] brings back the state before the first. *)
Theorem toggle_flips_and_twice_restores
    (s : state) (type : jsval) (h : handle) (w : BrowserWindow) :
  type ≠ Main →
  JSMap.get type (_windows s) = Some h →
  heap s !! h = Some w →
  (toggle type s).1 = Normal tt
  ∧ _windows (toggle type s).2 = _windows s
  ∧ heap (toggle type s).2 !! h = Some (set_visible (negb (visible w)) w)
  ∧ (toggle type (toggle type s).2).2 = s.
Proof.
  intros HM Hget Hw. rewrite (toggle_present s type h HM Hget).
  assert (heap s !! h = Some w) as Hw0 by exact Hw.
  rewrite Hw. simpl.
  assert (alter (set_visible (negb (visible w))) h (heap s) !! h
          = Some (set_visible (negb (visible w)) w)) as Hflipped.
  { rewrite list_lookup_alter_eq. exact (f_equal (fmap _) Hw0). }
  split; [done|]. split; [done|]. split; [exact Hflipped|].
  rewrite (toggle_present _ type h HM) by done. simpl.
  rewrite Hflipped. simpl. rewrite negb_involutive.
  rewrite list_alter_alter_eq.
  rewrite (alter_fixed _ (heap s) h w Hw0); [by destruct s|].
  by destruct w.
Qed.

(** X5: from any state without an about window, two [toggle( About )] in a
    row create exactly one window, set up as [_showAbout] sets it up and
    registered under [About], and leave it hidden. *)
Theorem toggle_twice_from_absent_leaves_hidden_window (s : state) :
  JSMap.get About (_windows s) = None →
  ∃ w, heap (run [Call_toggle About; Call_toggle About] s) = heap s ++ [w]
       ∧ JSMap.get About
           (_windows (run [Call_toggle About; Call_toggle About] s))
         = Some (length (heap s))
       ∧ visible w = false
       ∧ destroyed w = false
       ∧ config w = blueprint AboutClosed.
Proof.
  intros Habs. unfold run, step. simpl.
  assert (About ≠ Main) as HM by discriminate.
  rewrite (toggle_absent s About HM Habs), show_About,
    (_showAbout_absent s Habs). simpl.
  erewrite toggle_present; [|done|simpl; apply get_set_eq]. simpl.
  rewrite list_lookup_middle by done. simpl. rewrite alter_last.
  eexists. split; [reflexivity|]. split; [apply get_set_eq|]. by repeat split.
Qed.

(** X6: on a constructed manager, the close notification of the about
    window removes the [About] entry and nothing more: the [Main] entry is
    as before, the about window is marked closed, and every other window is
    untouched (no close request is issued). *)
Theorem About_closed_removes_only_About (tr : list event) (ha : handle) :
  JSMap.get About (_windows (run tr initial)) = Some ha →
  JSMap.get About (_windows (step (run tr initial) (Emit_closed ha))) = None
  ∧ JSMap.get Main (_windows (step (run tr initial) (Emit_closed ha)))
    = JSMap.get Main (_windows (run tr initial))
  ∧ (∃ w, heap (run tr initial) !! ha = Some w
          ∧ heap (step (run tr initial) (Emit_closed ha)) !! ha
            = Some (destroy w))
  ∧ (∀ h, h ≠ ha →
       heap (step (run tr initial) (Emit_closed ha)) !! h
       = heap (run tr initial) !! h).
Proof.
  set (s := run tr initial). intros Hget.
  assert (wf s) as Hwf by apply wf_reachable.
  destruct (wf_registered s About ha Hwf Hget) as (w & l & Hw & Hd & Hl & Hown).
  assert (l = AboutClosed) as -> by (by destruct l).
  unfold step. simpl. rewrite (emit_closed_state s ha w AboutClosed Hw Hd Hl).
  simpl. split; [apply get_delete_eq|]. split; [|split].
  - apply get_delete_ne. discriminate.
  - exists w. split; [done|]. rewrite list_lookup_alter_eq.
    exact (f_equal (fmap destroy) Hw).
  - intros h Hne. by rewrite list_lookup_alter_ne.
Qed.

(** X10: on a constructed manager, closing a registered window and showing
    its type again, once the close notification has come, registers a new
    window: its handle was never used before, it is alive, shown, without a
    close request and set up for its type, while the old window stays
    closed. *)
Theorem reopened_window_is_new
    (tr : list event) (type : jsval) (h : handle) :
  JSMap.get type (_windows (run tr initial)) = Some h →
  ∃ w' l,
    owner l = type
    ∧ JSMap.get type
        (_windows (run [Call_close type; Emit_closed h; Call_show type]
                     (run tr initial)))
      = Some (length (heap (run tr initial)))
    ∧ length (heap (run tr initial)) ≠ h
    ∧ heap (run [Call_close type; Emit_closed h; Call_show type]
              (run tr initial)) !! length (heap (run tr initial))
      = Some w'
    ∧ destroyed w' = false ∧ visible w' = true ∧ closeRequests w' = 0
    ∧ config w' = blueprint l
    ∧ (destroyed <$> heap (run [Call_close type; Emit_closed h; Call_show type]
                            (run tr initial)) !! h) = Some true.
Proof.
  set (s := run tr initial). intros Hget.
  assert (wf s) as Hwf by apply wf_reachable.
  destruct (wf_registered s type h Hwf Hget) as (w & l & Hw & Hd & Hl & Hown).
  assert (h < length (heap s))%nat as Hlt by (by eapply lookup_lt_Some).
  unfold run, step. simpl. rewrite (close_present s type h Hget). simpl.
  set (s1 := with_heap (alter request_close h (heap s)) s).
  assert (alter request_close h (heap s) !! h = Some (request_close w)) as Hw1.
  { rewrite list_lookup_alter_eq. exact (f_equal (fmap _) Hw). }
  rewrite (emit_closed_state s1 h (request_close w) l Hw1 Hd Hl). simpl.
  set (hp2 := match l with
              | MainClosed =>
                  close_others (_windows s)
                    (alter destroy h (alter request_close h (heap s)))
              | AboutClosed => alter destroy h (alter request_close h (heap s))
              end).
  assert (length hp2 = length (heap s)) as Hlen.
  { unfold hp2. destruct l;
      by rewrite ?length_close_others, !length_alter. }
  assert (destroyed <$> hp2 !! h = Some true) as Hgone.
  { unfold hp2. destruct l.
    - rewrite fmap_lookup_close_others by done. rewrite list_lookup_alter_eq.
      exact (f_equal (λ o, destroyed <$> (destroy <$> o)) Hw1).
    - rewrite list_lookup_alter_eq.
      exact (f_equal (λ o, destroyed <$> (destroy <$> o)) Hw1). }
  set (s2 := mkState (JSMap.delete (owner l) (_windows s)) (ipc s) hp2
               (if decide (focused s = Some h) then None else focused s)
               (if DEBUG then effects s ++ [UtilLog (closed_message l)]
                else effects s)).
  assert (JSMap.get type (_windows s2) = None) as Habs.
  { simpl. rewrite Hown. apply get_delete_eq. }
  assert (∃ w', (show type s2).2
                = mkState (JSMap.set type (length hp2) (_windows s2)) (ipc s2)
                    (hp2 ++ [w']) (focused s2) (effects s2)
                ∧ destroyed w' = false ∧ visible w' = true
                ∧ closeRequests w' = 0 ∧ config w' = blueprint l)
    as (w' & -> & Hd' & Hv' & Hc' & Hcfg').
  { subst type. destruct l.
    - rewrite show_Main, (_showMain_absent s2 Habs). by eexists.
    - rewrite show_About, (_showAbout_absent s2 Habs). by eexists. }
  exists w', l. simpl. rewrite Hlen.
  split; [done|]. split; [apply get_set_eq|]. split; [lia|].
  split; [rewrite <- Hlen; by apply list_lookup_middle|].
  split; [done|]. split; [done|]. split; [done|]. split; [done|].
  destruct (hp2 !! h) as [w2|] eqn:Hw2; [|done].
  by rewrite (lookup_app_l_Some _ _ _ _ Hw2).
Qed.
(** X13: in every state, [show( type )] leaves the entry of every other
    type and every window that already exists as they are, and creates at
    most one window. *)
Theorem show_leaves_the_rest_alone (s : state) (type type' : jsval) :
  type' ≠ type →
  JSMap.get type' (_windows (show type s).2) = JSMap.get type' (_windows s)
  ∧ (∀ h w, heap s !! h = Some w → heap (show type s).2 !! h = Some w)
  ∧ (length (heap (show type s).2) <= S (length (heap s)))%nat.
Proof.
  intros Hne. split; [by apply show_other|].
  destruct (show_cases s type)
    as [-> | [[_ ->] | (l & w & _ & _ & _ & _ & _ & _ & ->)]]; simpl.
  - split; [done | lia].
  - split; [done | lia].
  - split.
    + intros h w0 Hw0. by apply lookup_app_l_Some.
    + rewrite length_app. simpl. lia.
Qed.
End Compositions.

(** ** Outputs and failures *)

Section Outputs.
Context {ext : Externals}.
Import WindowManager.

(** X7: a constructed manager listens on one channel only: after any
    history, a message on a channel other than [RequestShowURL] ends normally
    and changes nothing. *)
Theorem other_channels_are_ignored
    (tr : list event) (channel : string) (ev : IPCEvent) (url : string) :
  channel ≠ IPCKeys_RequestShowURL →
  emit_ipc channel ev url (run tr initial) = (Normal tt, run tr initial).
Proof.
  intros Hne. rewrite emit_ipc_eq by apply wf_reachable.
  by rewrite decide_False by congruence.
Qed.

(** What a call of a public method does to the parts of the state it never
    writes. *)
Lemma call_frame s e :
  is_call e = true →
  effects (step s e) = effects s
  ∧ ipc (step s e) = ipc s
  ∧ focused (step s e) = focused s.
Proof.
  intros Hcall. unfold step.
  destruct e as [t|t|t|t| | |h|c ev u|o]; simpl; try done.
  - by destruct (close_cases s t) as [-> | [h ->]].
  - by destruct (show_cases s t)
      as [-> | [[_ ->] | (l & w & _ & _ & _ & _ & _ & _ & ->)]].
  - destruct (decide (t = Main)) as [->|HM]; [done|].
    destruct (JSMap.get t (_windows s)) as [h|] eqn:Hget.
    + by rewrite (toggle_present s t h HM Hget).
    + rewrite (toggle_absent s t HM Hget).
      by destruct (show_cases s t)
        as [-> | [[_ ->] | (l & w & _ & _ & _ & _ & _ & _ & ->)]].
  - unfold reload, bind, gets. by destruct (focused s) eqn:Hf.
  - unfold toggleDevTools, bind, gets. by destruct (focused s) eqn:Hf.
Qed.


(** The outputs of a close notification: at most the debug line. *)
Lemma emit_closed_outputs s h :
  wf s →
  opened (effects (emit_closed h s).2) = opened (effects s)
  ∧ sent (effects (emit_closed h s).2) = sent (effects s).
Proof.
  intros Hwf. destruct (heap s !! h) as [w|] eqn:Hw.
  2:{ rewrite emit_closed_gone; [done | by left]. }
  destruct (destroyed w) eqn:Hd.
  { rewrite emit_closed_gone; [done | right; eauto]. }
  destruct (wf_heap s Hwf h w Hw) as [l Hl].
  rewrite (emit_closed_state s h w l Hw Hd Hl). simpl.
  destruct DEBUG; [|done]. unfold opened, sent. rewrite !omap_app. simpl.
  by rewrite !app_nil_r.
Qed.

Lemma outputs_step s e :
  wf s →
  opened (effects (step s e)) = opened (effects s) ++ requested [e]
  ∧ sent (effects (step s e)) = sent (effects s) ++ acknowledgments [e].
Proof.
  intros Hwf. destruct (is_call e) eqn:Hcall.
  { destruct (call_frame s e Hcall) as (-> & _ & _).
    destruct e; try discriminate; simpl; by rewrite !app_nil_r. }
  destruct e as [t|t|t|t| | |h|c ev u|o]; try discriminate; unfold step; simpl.
  - destruct (emit_closed_outputs s h Hwf) as [-> ->]. by rewrite !app_nil_r.
  - rewrite emit_ipc_eq by done. simpl. case_decide; simpl.
    + unfold opened, sent. by rewrite !omap_app.
    + by rewrite !app_nil_r.
  - rewrite !app_nil_r. destruct o as [h|]; [|done].
    destruct (heap s !! h) as [w|]; [|done]. by destruct (destroyed w).
Qed.

Lemma outputs_run tr s :
  wf s →
  opened (effects (run tr s)) = opened (effects s) ++ requested tr
  ∧ sent (effects (run tr s)) = sent (effects s) ++ acknowledgments tr.
Proof.
  revert s. induction tr as [|e tr IH]; intros s Hwf.
  - simpl. by rewrite !app_nil_r.
  - rewrite run_cons. destruct (IH (step s e) (wf_step s e Hwf)) as [-> ->].
    destruct (outputs_step s e Hwf) as [-> ->].
    rewrite <- !app_assoc. unfold requested, acknowledgments.
    change (e :: tr) with ([e] ++ tr). by rewrite !omap_app.
Qed.

(** X8: over any history of a constructed manager, [shell.openExternal] is
    called exactly with the URLs of the [RequestShowURL] messages received,
    once each and in their order, and the messages sent are exactly one
    [FinishShowURL] per such message, to its sender, in the same order;
    no method call and no close notification opens a URL or sends a
    message. *)
Theorem shell_opens_exactly_the_requested_URLs (tr : list event) :
  opened (effects (run tr initial)) = requested tr
  ∧ sent (effects (run tr initial)) = acknowledgments tr.
Proof. exact (outputs_run tr initial wf_initial). Qed.

(** X11: a type that is neither ['main'], ['about'] nor [undefined] never
    gets an entry: after any history of a constructed manager, [getWindow]
    returns [undefined] for it, and [show], [toggle] and [close] of it end
    normally and change nothing. *)
Theorem unknown_type_is_ignored (tr : list event) (type : jsval) :
  type ≠ Main → type ≠ About → type ≠ JUndefined →
  getWindow type (run tr initial) = (Normal None, run tr initial)
  ∧ show type (run tr initial) = (Normal tt, run tr initial)
  ∧ toggle type (run tr initial) = (Normal tt, run tr initial)
  ∧ close type (run tr initial) = (Normal tt, run tr initial).
Proof.
  intros HM HA HU. set (s := run tr initial).
  assert (JSMap.get type (_windows s) = None) as Habs.
  { destruct (JSMap.get type (_windows s)) as [h|] eqn:Hget; [|done].
    by destruct (wf_types s type h (wf_reachable tr) Hget). }
  assert (show type s = (Normal tt, s)) as Hshow.
  { by apply show_default_is_noop. }
  split; [|split; [done|split]].
  - unfold getWindow, windows_get, gets. by rewrite Habs.
  - by rewrite (toggle_absent s type HM Habs).
  - unfold close, bind, windows_get, gets. by rewrite Habs.
Qed.

(** X12: on a constructed manager, after any history, an event ends with an
    exception exactly when it is [show( undefined )] or
    [toggle( undefined )], and an event that ends with an exception leaves
    the state as it was. *)
Theorem only_undefined_type_throws (tr : list event) (e : event) :
  ((∃ x, (exec e (run tr initial)).1 = Throw x)
   ↔ e = Call_show JUndefined ∨ e = Call_toggle JUndefined)
  ∧ (∀ x, (exec e (run tr initial)).1 = Throw x →
          (exec e (run tr initial)).2 = run tr initial).
Proof.
  set (s := run tr initial).
  assert (wf s) as Hwf by apply wf_reachable.
  assert (toggle JUndefined s = show JUndefined s) as Htoggle.
  { apply toggle_absent; [discriminate | by apply wf_undefined_absent]. }
  assert (∀ x, (exec e s).1 = Throw x →
            (e = Call_show JUndefined ∨ e = Call_toggle JUndefined)
            ∧ (exec e s).2 = s) as Honly.
  { intros x. destruct e as [t|t|t|t| | |h|c ev u|o]; simpl.
    - done.
    - by destruct (close_cases s t) as [-> | [h ->]].
    - destruct (show_cases s t)
        as [-> | [[-> ->] | (l & w & _ & _ & _ & _ & _ & _ & ->)]];
        [done | by split; [left|] | done].
    - destruct (decide (t = Main)) as [->|HM]; [done|].
      destruct (JSMap.get t (_windows s)) as [h|] eqn:Hget.
      + by rewrite (toggle_present s t h HM Hget).
      + rewrite (toggle_absent s t HM Hget).
        destruct (show_cases s t)
          as [-> | [[-> ->] | (l & w & _ & _ & _ & _ & _ & _ & ->)]];
          [done | by split; [right|] | done].
    - unfold reload, bind, gets. by destruct (focused s).
    - unfold toggleDevTools, bind, gets. by destruct (focused s).
    - by destruct (emit_closed_cases s h Hwf)
        as [-> | (w & l & hp' & foc & eff & _ & _ & _ & _ & ->)].
    - by rewrite emit_ipc_eq.
    - done. }
  split; [split|].
  - intros [x Hx]. by destruct (Honly x Hx).
  - intros [-> | ->]; simpl; [|rewrite Htoggle]; by eexists.
  - intros x Hx. by destruct (Honly x Hx).
Qed.
End Outputs.

(** ** The store binding *)

Section BindingFacts.
Context {Folders CurrentFolder Rest Folder Action Store Result : Type}.
Variable actions_enumSubFolders : string → Action.
Variable actions_enumItems : Folder → Action.
Import Container.

(** C9: [mapStateToProps] returns the [folders] and the [currentFolder] of
    the state it is given, as they are.  Each callback of
    [mapDispatchToProps] builds the action of its argument with the matching
    creator and hands it to [dispatch]: the store after the callback is the
    store after that one [dispatch], whatever [dispatch] is, and a store that
    records what it is handed has recorded exactly that one action more. *)
Theorem binding_reads_two_fields_and_dispatches_once :
  (∀ st : AppState Folders CurrentFolder Rest,
     folders (mapStateToProps st) = state_folders st
     ∧ currentFolder (mapStateToProps st) = state_currentFolder st)
  ∧ (∀ (dispatch : Action → Store → Result * Store) folderPath st,
       enumSubFolders
         (mapDispatchToProps actions_enumSubFolders actions_enumItems dispatch)
         folderPath st
       = (tt, (dispatch (actions_enumSubFolders folderPath) st).2))
  ∧ (∀ (dispatch : Action → Store → Result * Store) folder st,
       enumItems
         (mapDispatchToProps actions_enumSubFolders actions_enumItems dispatch)
         folder st
       = (tt, (dispatch (actions_enumItems folder) st).2))
  ∧ (∀ folderPath log,
       (enumSubFolders
          (mapDispatchToProps actions_enumSubFolders actions_enumItems
             recording_dispatch) folderPath log).2
       = log ++ [actions_enumSubFolders folderPath])
  ∧ (∀ folder log,
       (enumItems
          (mapDispatchToProps actions_enumSubFolders actions_enumItems
             recording_dispatch) folder log).2
       = log ++ [actions_enumItems folder]).
Proof.
  split; [by intros []|]. split; [|split; [|split]].
  - intros dispatch folderPath st. simpl.
    by destruct (dispatch (actions_enumSubFolders folderPath) st).
  - intros dispatch folder st. simpl.
    by destruct (dispatch (actions_enumItems folder) st).
  - done.
  - done.
Qed.
End BindingFacts.

(** ** The code on concrete sessions *)

Section Examples.
Import WindowManager.
Existing Instance example_externals.

Lemma close_absent_is_noop_witness :
  JSMap.get About (_windows initial) = None
  ∧ close About initial = (Normal tt, initial)
  ∧ ∀ h w, heap (close About initial).2 !! h = Some w →
      ∃ w0, heap initial !! h = Some w0 ∧ closeRequests w = closeRequests w0.
Proof.
  split; [reflexivity|].
  apply (close_absent_is_noop About initial).
  reflexivity.
Defined.

Lemma toggle_absent_is_show_witness :
  About ≠ Main
  ∧ JSMap.get About (_windows initial) = None
  ∧ toggle About initial = show About initial.
Proof.
  assert (About ≠ Main) as Hne by discriminate.
  split; [exact Hne|]. split; [reflexivity|].
  apply (toggle_absent_is_show About initial Hne).
  reflexivity.
Defined.
Lemma show_is_idempotent_witness :
  (About = About ∨ About = Main)
  ∧ (∀ h, JSMap.get About (_windows initial) = Some h →
       show About initial = (Normal tt, initial))
  ∧ show About (show About initial).2 = (Normal tt, (show About initial).2)
  ∧ (JSMap.get About (_windows initial) = None →
     length (heap (run [Call_show About; Call_show About] initial))
     = S (length (heap initial))).
Proof.
  assert (About = About ∨ About = Main) as Htype by (left; reflexivity).
  split; [exact Htype|].
  exact (show_is_idempotent About initial Htype).
Defined.

Lemma reload_toggleDevTools_keep_registry_witness :
  focused example_session = None
  ∧ (reload example_session).2 = example_session
  ∧ (toggleDevTools example_session).2 = example_session.
Proof.
  assert (focused example_session = None) as Hnone by reflexivity.
  split; [exact Hnone|].
  destruct (reload_toggleDevTools_keep_registry example_session)
    as (_ & _ & Hfocus & _).
  exact (Hfocus Hnone).
Defined.

Lemma getWindow_is_lookup_witness :
  (getWindow About (run [Call_show Main; Call_toggle Main; Call_close About]
                      initial)).1 = Normal None
  ∧ JSMap.get About (_windows (run [Call_show Main; Call_show About] initial))
    = Some 1
  ∧ (getWindow About
       (run [Emit_closed 1; Call_reload]
          (run [Call_show Main; Call_show About] initial))).1 = Normal None.
Proof.
  destruct (getWindow_is_lookup About) as (_ & Hnever & Hclosed & _).
  assert (JSMap.get About
            (_windows (run [Call_show Main; Call_show About] initial)) = Some 1)
    as Hget by reflexivity.
  split; [|split; [exact Hget|]].
  - apply (Hnever [Call_show Main; Call_toggle Main; Call_close About]).
    intros e He. repeat (apply elem_of_cons in He as [-> | He]; [reflexivity|]).
    by apply elem_of_nil in He.
  - apply (Hclosed [Call_show Main; Call_show About] 1 [Call_reload] Hget).
    intros e He. repeat (apply elem_of_cons in He as [-> | He]; [reflexivity|]).
    by apply elem_of_nil in He.
Defined.

Lemma Main_closed_requests_cascade_witness :
  JSMap.get Main (_windows (run [Call_show Main; Call_show About] initial))
  = Some 0
  ∧ JSMap.get Main
      (_windows (step (run [Call_show Main; Call_show About] initial)
                   (Emit_closed 0))) = None
  ∧ JSMap.get About
      (_windows (step (run [Call_show Main; Call_show About] initial)
                   (Emit_closed 0))) = Some 1
  ∧ JSMap.get About
      (_windows (step (step (run [Call_show Main; Call_show About] initial)
                         (Emit_closed 0)) (Emit_closed 1))) = None.
Proof.
  assert (JSMap.get Main
            (_windows (run [Call_show Main; Call_show About] initial)) = Some 0)
    as Hmain by reflexivity.
  assert (About ≠ Main) as Hne by discriminate.
  destruct (Main_closed_requests_cascade
              [Call_show Main; Call_show About] 0 Hmain) as [Hgone Hothers].
  destruct (Hothers About 1 Hne eq_refl) as (Hkept & _ & Hthen).
  split; [exact Hmain|]. split; [exact Hgone|]. split; [exact Hkept|exact Hthen].
Defined.

(** C1, as the claim words it, fails on the code: in the session with both
    windows, [Main] and [About] are registered, and after the close
    notification of the main window it is not the case that every other
    registered type has lost its entry: [About] still has its window. *)
Lemma About_entry_outlives_Main_closed :
  JSMap.get Main (_windows example_session) = Some 0
  ∧ JSMap.get About (_windows example_session) = Some 1
  ∧ (getWindow About (step example_session (Emit_closed 0))).1
    = Normal (Some 1)
  ∧ ¬ (∀ type h,
         type ≠ Main →
         JSMap.get type (_windows example_session) = Some h →
         JSMap.get type (_windows (step example_session (Emit_closed 0)))
         = None).
Proof.
  split; [reflexivity|]. split; [reflexivity|]. split; [reflexivity|].
  intros Hclaim. specialize (Hclaim About 1).
  assert (About ≠ Main) as Hne by discriminate.
  specialize (Hclaim Hne eq_refl). discriminate Hclaim.
Qed.
End Examples.

(** ** Further runs on the concrete session *)

Section MoreExamples.
Import WindowManager.
Existing Instance example_externals.

Lemma registered_window_is_live_and_set_up_witness :
  JSMap.get About (_windows (run [Call_show Main; Call_show About] initial))
  = Some 1
  ∧ ∃ w l, owner l = About
           ∧ heap (run [Call_show Main; Call_show About] initial) !! 1 = Some w
           ∧ destroyed w = false
           ∧ config w = blueprint l.
Proof.
  assert (JSMap.get About
            (_windows (run [Call_show Main; Call_show About] initial)) = Some 1)
    as Hget by reflexivity.
  split; [exact Hget|].
  exact (registered_window_is_live_and_set_up
           [Call_show Main; Call_show About] About 1 Hget).
Defined.

Lemma close_requests_and_notification_removes_witness :
  JSMap.get About (_windows (run [Call_show Main; Call_show About] initial))
  = Some 1
  ∧ JSMap.get About
      (_windows (run [Call_close About; Emit_closed 1]
                   (run [Call_show Main; Call_show About] initial)))
    = None.
Proof.
  assert (JSMap.get About
            (_windows (run [Call_show Main; Call_show About] initial)) = Some 1)
    as Hget by reflexivity.
  split; [exact Hget|].
  destruct (close_requests_and_notification_removes
              [Call_show Main; Call_show About] About 1 Hget)
    as (_ & _ & _ & _ & Hgone).
  exact Hgone.
Defined.

Lemma toggle_flips_and_twice_restores_witness :
  About ≠ Main
  ∧ JSMap.get About (_windows example_session) = Some 1
  ∧ heap example_session !! 1 = Some example_about_window
  ∧ heap (toggle About example_session).2 !! 1
    = Some (set_visible false example_about_window)
  ∧ (toggle About (toggle About example_session).2).2 = example_session.
Proof.
  assert (About ≠ Main) as HM by discriminate.
  assert (JSMap.get About (_windows example_session) = Some 1) as Hget
    by reflexivity.
  assert (heap example_session !! 1 = Some example_about_window) as Hw
    by reflexivity.
  split; [exact HM|]. split; [exact Hget|]. split; [exact Hw|].
  destruct (toggle_flips_and_twice_restores
              example_session About 1 example_about_window HM Hget Hw)
    as (_ & _ & Hflip & Hback).
  split; [exact Hflip | exact Hback].
Defined.

Lemma toggle_twice_from_absent_leaves_hidden_window_witness :
  JSMap.get About (_windows initial) = None
  ∧ ∃ w, heap (run [Call_toggle About; Call_toggle About] initial)
         = heap initial ++ [w]
         ∧ JSMap.get About
             (_windows (run [Call_toggle About; Call_toggle About] initial))
           = Some (length (heap initial))
         ∧ visible w = false
         ∧ destroyed w = false
         ∧ config w = blueprint AboutClosed.
Proof.
  assert (JSMap.get About (_windows initial) = None) as Habs by reflexivity.
  split; [exact Habs|].
  exact (toggle_twice_from_absent_leaves_hidden_window initial Habs).
Defined.

Lemma About_closed_removes_only_About_witness :
  JSMap.get About (_windows (run [Call_show Main; Call_show About] initial))
  = Some 1
  ∧ JSMap.get About
      (_windows (step (run [Call_show Main; Call_show About] initial)
                   (Emit_closed 1))) = None
  ∧ JSMap.get Main
      (_windows (step (run [Call_show Main; Call_show About] initial)
                   (Emit_closed 1)))
    = JSMap.get Main (_windows (run [Call_show Main; Call_show About] initial)).
Proof.
  assert (JSMap.get About
            (_windows (run [Call_show Main; Call_show About] initial)) = Some 1)
    as Hget by reflexivity.
  split; [exact Hget|].
  destruct (About_closed_removes_only_About
              [Call_show Main; Call_show About] 1 Hget)
    as (Hgone & Hmain & _).
  split; [exact Hgone | exact Hmain].
Defined.

Lemma reopened_window_is_new_witness :
  JSMap.get About (_windows (run [Call_show Main; Call_show About] initial))
  = Some 1
  ∧ ∃ w' l,
      owner l = About
      ∧ JSMap.get About
          (_windows (run [Call_close About; Emit_closed 1; Call_show About]
                       (run [Call_show Main; Call_show About] initial)))
        = Some (length (heap (run [Call_show Main; Call_show About] initial)))
      ∧ length (heap (run [Call_show Main; Call_show About] initial)) ≠ 1
      ∧ heap (run [Call_close About; Emit_closed 1; Call_show About]
                (run [Call_show Main; Call_show About] initial))
          !! length (heap (run [Call_show Main; Call_show About] initial))
        = Some w'
      ∧ destroyed w' = false ∧ visible w' = true ∧ closeRequests w' = 0
      ∧ config w' = blueprint l
      ∧ (destroyed <$> heap (run [Call_close About; Emit_closed 1;
                                  Call_show About]
                              (run [Call_show Main; Call_show About] initial))
                       !! 1) = Some true.
Proof.
  assert (JSMap.get About
            (_windows (run [Call_show Main; Call_show About] initial)) = Some 1)
    as Hget by reflexivity.
  split; [exact Hget|].
  exact (reopened_window_is_new [Call_show Main; Call_show About] About 1 Hget).
Defined.

Lemma show_leaves_the_rest_alone_witness :
  About ≠ Main
  ∧ JSMap.get About (_windows (show Main example_session).2)
    = JSMap.get About (_windows example_session).
Proof.
  assert (About ≠ Main) as Hne by discriminate.
  split; [exact Hne|].
  exact (proj1 (show_leaves_the_rest_alone example_session Main About Hne)).
Defined.

Lemma other_channels_are_ignored_witness :
  "Ping" ≠ IPCKeys_RequestShowURL
  ∧ emit_ipc "Ping" (mkEvent 7) "https://example.com" (run [Call_show Main] initial)
    = (Normal tt, run [Call_show Main] initial).
Proof.
  assert ("Ping" ≠ IPCKeys_RequestShowURL) as Hne by discriminate.
  split; [exact Hne|].
  exact (other_channels_are_ignored [Call_show Main] "Ping" (mkEvent 7)
           "https://example.com" Hne).
Defined.


Lemma unknown_type_is_ignored_witness :
  JStr "settings" ≠ Main ∧ JStr "settings" ≠ About
  ∧ JStr "settings" ≠ JUndefined
  ∧ show (JStr "settings") (run [Call_show Main] initial)
    = (Normal tt, run [Call_show Main] initial)
  ∧ toggle (JStr "settings") (run [Call_show Main] initial)
    = (Normal tt, run [Call_show Main] initial).
Proof.
  assert (JStr "settings" ≠ Main) as HM by discriminate.
  assert (JStr "settings" ≠ About) as HA by discriminate.
  assert (JStr "settings" ≠ JUndefined) as HU by discriminate.
  split; [exact HM|]. split; [exact HA|]. split; [exact HU|].
  destruct (unknown_type_is_ignored [Call_show Main] (JStr "settings")
              HM HA HU) as (_ & Hshow & Htoggle & _).
  split; [exact Hshow | exact Htoggle].
Defined.
Lemma live_window_is_registered_witness :
  heap (run [Call_show Main; Call_show About] initial) !! 1
  = Some example_about_window
  ∧ destroyed example_about_window = false
  ∧ ∃ l, listeners example_about_window = [("closed", l)]
         ∧ JSMap.get (owner l)
             (_windows (run [Call_show Main; Call_show About] initial))
           = Some 1.
Proof.
  assert (heap (run [Call_show Main; Call_show About] initial) !! 1
          = Some example_about_window) as Hw by reflexivity.
  assert (destroyed example_about_window = false) as Hd by reflexivity.
  split; [exact Hw|]. split; [exact Hd|].
  exact (proj1 (live_window_is_registered
                  [Call_show Main; Call_show About] 1 example_about_window
                  Hw Hd)).
Defined.
End MoreExamples.
